(** * ai-knowledge-helper: a shallow embedding of the RAG pipeline

    The Python sources under [Ai_Intern/] are embedded module by module:
    [preprocessing.py] (cleaning and chunking), [retrieval.py] (threshold
    filter over the vector store), [qa_pipeline.py] (fallback answerer and
    [RAGPipeline.ask]), [evaluation.py] (heuristic scores) and [main.py]
    (the [/ask] handler).

    Conventions.
    - A Python [str] is a list of code points; the embedding covers the
      code points 0..255, for which the character classes of [re] and of
      [str.strip], [str.split] and [str.lower] are tabulated below.
    - A Python [float] is an IEEE binary64 value, that is a primitive
      [float] of Rocq; [+], [-], [*], [/] and [<=?] are the IEEE operations.
    - Token counts, lengths and list indices are natural numbers.
    - A raised exception is a value: a computation that may raise returns
      [res A], and [try ... except Exception] is [try_except].
    - The collaborators the repository calls but does not implement
      (tokenizer, embedding model, numpy reductions, vector store, hosted
      chat model) are the fields of the class [Externals]. *)

From Stdlib Require Import Ascii String.
From Stdlib Require Import List Bool Arith ZArith Lia.
From Stdlib Require Import Floats.PrimFloat Floats.SpecFloat Floats.FloatOps.
From Stdlib Require Import Floats.FloatAxioms Numbers.Cyclic.Int63.Uint63.
From Stdlib Require Import Numbers.DecimalString Numbers.DecimalNat.
Import ListNotations.

Set Warnings "-inexact-float".
Set Implicit Arguments.

(** ** Python strings *)

Module PyStr.

Definition str := list ascii.

Definition lit (s : string) : str := list_ascii_of_string s.

Definition code (c : ascii) : nat := nat_of_ascii c.

Definition between (lo hi n : nat) : bool := (lo <=? n) && (n <=? hi).

(** [str.isspace] on one code point: also the class [\s] of [re] on
    [str] patterns, and what [strip()] and [split()] remove. *)
Definition isspace (c : ascii) : bool :=
  let n := code c in
  between 9 13 n || between 28 31 n || (n =? 32) || (n =? 133) || (n =? 160).

Definition isalpha (c : ascii) : bool :=
  let n := code c in
  between 65 90 n || between 97 122 n || (n =? 170) || (n =? 181)
  || (n =? 186) || between 192 214 n || between 216 246 n
  || between 248 255 n.

Definition isalnum (c : ascii) : bool :=
  let n := code c in
  isalpha c || between 48 57 n || (n =? 178) || (n =? 179) || (n =? 185)
  || between 188 190 n.

(** The class [\w] of [re]: alphanumeric or underscore. *)
Definition isword (c : ascii) : bool := isalnum c || (code c =? 95).

Definition lower_char (c : ascii) : ascii :=
  let n := code c in
  if between 65 90 n || between 192 214 n || between 216 222 n
  then ascii_of_nat (n + 32) else c.

(** [s.lower()] *)
Definition lower (s : str) : str := map lower_char s.

Definition nonempty {A : Type} (l : list A) : bool :=
  match l with [] => false | _ :: _ => true end.

Fixpoint dropwhile {A : Type} (p : A -> bool) (l : list A) : list A :=
  match l with
  | [] => []
  | x :: r => if p x then dropwhile p r else l
  end.

Definition lstrip (s : str) : str := dropwhile isspace s.

Definition rstrip (s : str) : str := rev (dropwhile isspace (rev s)).

(** [s.strip()] *)
Definition strip (s : str) : str := rstrip (lstrip s).

(** Put a character in front of the piece under construction, the head
    of a list of pieces. *)
Definition cons_head (c : ascii) (ps : list str) : list str :=
  match ps with
  | [] => [[c]]
  | p :: r => (c :: p) :: r
  end.

Definition starts_nonspace (s : str) : bool :=
  match s with
  | [] => false
  | c :: _ => negb (isspace c)
  end.

(** [s.split()]: the maximal runs of non-whitespace characters. *)
Fixpoint split_ws (s : str) : list str :=
  match s with
  | [] => []
  | c :: r =>
      if isspace c then split_ws r
      else if starts_nonspace r then cons_head c (split_ws r)
      else [c] :: split_ws r
  end.

(** [s.split(d)] for a one-character separator: empty pieces are kept. *)
Fixpoint split_on (d : ascii) (s : str) : list str :=
  match s with
  | [] => [[]]
  | c :: r =>
      if Ascii.eqb c d then [] :: split_on d r
      else cons_head c (split_on d r)
  end.

(** [sep.join(l)] *)
Fixpoint join (sep : str) (l : list str) : str :=
  match l with
  | [] => []
  | x :: r =>
      match r with
      | [] => x
      | _ :: _ => x ++ sep ++ join sep r
      end
  end.

Fixpoint startswith (p s : str) : bool :=
  match p, s with
  | [], _ => true
  | _ :: _, [] => false
  | a :: p', b :: s' => Ascii.eqb a b && startswith p' s'
  end.

(** [p in s] on strings: [p] occurs in [s] as a substring. *)
Fixpoint contains (p s : str) : bool :=
  startswith p s ||
  match s with
  | [] => false
  | _ :: r => contains p r
  end.

(** [l[-k:]] for [k >= 0]; [l[-0:]] is [l[0:]], the whole list. *)
Definition last_slice {A : Type} (k : nat) (l : list A) : list A :=
  if k =? 0 then l else skipn (length l - k) l.

(** [re.sub(r'\s+', ' ', s)]: every maximal whitespace run becomes one
    space; [in_run] tells that the previous character was whitespace. *)
Fixpoint sub_ws_runs (in_run : bool) (s : str) : str :=
  match s with
  | [] => []
  | c :: r =>
      if isspace c
      then if in_run then sub_ws_runs true r
           else " "%char :: sub_ws_runs true r
      else c :: sub_ws_runs false r
  end.

Definition is_sentence_end (c : ascii) : bool :=
  Ascii.eqb c "."%char || Ascii.eqb c "!"%char || Ascii.eqb c "?"%char.

(** [re.split(r'(?<=[.!?])\s+', s)]: a separator is a maximal whitespace
    run that directly follows one of [. ! ?]. [after_end] tells that the
    previous character is one of them, [in_sep] that a separator is being
    consumed. The head of the result is the piece under construction. *)
Fixpoint split_sentences_from (after_end in_sep : bool) (s : str) : list str :=
  match s with
  | [] => [[]]
  | c :: r =>
      if isspace c then
        if in_sep then split_sentences_from false true r
        else if after_end then [] :: split_sentences_from false true r
        else cons_head c (split_sentences_from false false r)
      else cons_head c (split_sentences_from (is_sentence_end c) false r)
  end.

Definition split_sentences (s : str) : list str :=
  split_sentences_from false false s.

(** Equality of two strings, as a boolean. *)
Fixpoint str_eqb (a b : str) : bool :=
  match a, b with
  | [], [] => true
  | x :: a', y :: b' => Ascii.eqb x y && str_eqb a' b'
  | _, _ => false
  end.

(** [set(l)] for counting: the distinct elements of [l]. *)
Fixpoint distinct (l : list str) : list str :=
  match l with
  | [] => []
  | x :: r => if existsb (str_eqb x) r then distinct r else x :: distinct r
  end.

End PyStr.

Import PyStr.

(** ** preprocessing.py *)

Module Preprocessing.

(** The characters [re.sub(r'[^\w\s\.\,\!\?\;\:\-\(\)]', '', text)] keeps. *)
Definition kept_char (c : ascii) : bool :=
  isword c || isspace c
  || existsb (Ascii.eqb c) (lit ".,!?;:-()").

Definition clean_text (text : str) : str :=
  let text := sub_ws_runs false text in
  let text := filter kept_char text in
  strip text.

(** The module-level [encoding]: [Some enc] when tiktoken is available
    ([enc] is its [encode]), [None] otherwise. *)
Definition Encoding := option (str -> list nat).

Definition count_tokens (encoding : Encoding) (text : str) : nat :=
  match encoding with
  | Some enc => length (enc text)
  | None => length text / 4
  end.

Section Chunker.

Variable encoding : Encoding.
Variables chunk_size chunk_overlap : nat.

(** The loop state: [chunks], the chunk under construction (a list of
    pieces that [" ".join] assembles) and its running size. *)
Definition loop_state := (list str * list str * nat)%type.

(** The overlap carried into the next chunk:
    [c[-chunk_overlap:] if len(c) > chunk_overlap else c]. *)
Definition overlap_of (c : list str) : list str :=
  if chunk_overlap <? length c then last_slice chunk_overlap c else c.

(** One iteration of [for word in words]. *)
Definition word_step (st : loop_state) (word : str) : loop_state :=
  let '(chunks, temp_chunk, temp_size) := st in
  let word_tokens := count_tokens encoding word in
  if (chunk_size <? temp_size + word_tokens) && nonempty temp_chunk then
    let chunks := chunks ++ [join (lit " ") temp_chunk] in
    let overlap_words := overlap_of temp_chunk in
    let temp_chunk := overlap_words ++ [word] in
    (chunks, temp_chunk, count_tokens encoding (join (lit " ") temp_chunk))
  else
    (chunks, temp_chunk ++ [word], temp_size + word_tokens).

(** One iteration of [for sentence in sentences]. *)
Definition sentence_step (st : loop_state) (sentence : str) : loop_state :=
  let '(chunks, current_chunk, current_size) := st in
  let sentence := strip sentence in
  if negb (nonempty sentence) then st
  else
    let sentence_tokens := count_tokens encoding sentence in
    if chunk_size <? sentence_tokens then
      let '(chunks, current_chunk, current_size) :=
        if nonempty current_chunk
        then (chunks ++ [join (lit " ") current_chunk], [], 0)
        else (chunks, current_chunk, current_size) in
      let words := split_ws sentence in
      let '(chunks, temp_chunk, temp_size) :=
        fold_left word_step words (chunks, [], 0) in
      if nonempty temp_chunk then (chunks, temp_chunk, temp_size)
      else (chunks, current_chunk, current_size)
    else if (chunk_size <? current_size + sentence_tokens)
            && nonempty current_chunk then
      let chunks := chunks ++ [join (lit " ") current_chunk] in
      let overlap_text := join (lit " ") (overlap_of current_chunk) in
      let current_chunk :=
        if nonempty overlap_text then [overlap_text; sentence]
        else [sentence] in
      (chunks, current_chunk,
       count_tokens encoding (join (lit " ") current_chunk))
    else
      (chunks, current_chunk ++ [sentence], current_size + sentence_tokens).

(** [chunks] as it stands before the final filter, for a text already
    cleaned and not empty. *)
Definition assemble (text : str) : list str :=
  let sentences := split_sentences text in
  let '(chunks, current_chunk, _) :=
    fold_left sentence_step sentences ([], [], 0) in
  if nonempty current_chunk
  then chunks ++ [join (lit " ") current_chunk]
  else chunks.

Definition big_enough (chunk : str) : bool :=
  10 <? count_tokens encoding chunk.

Definition chunk_text (text : str) : list str :=
  let text := clean_text text in
  if negb (nonempty text) then []
  else filter big_enough (assemble text).

End Chunker.

(** [preprocess_text]: the chunks of all documents, in order. *)
Definition preprocess_text (encoding : Encoding) (texts : list str)
    (chunk_size chunk_overlap : nat) : list str :=
  flat_map (chunk_text encoding chunk_size chunk_overlap) texts.

(** A tokenizer that yields one token per letter. *)
Definition letter_encoding : Encoding :=
  Some (fun s => map code (filter isalpha s)).

End Preprocessing.

(** ** Exceptions, floats and the collaborators *)

Inductive exn : Type :=
| HTTPException (status_code : nat) (detail : str)
| OtherException (message : str).

(** A computation that returns an [A] or raises. *)
Definition res (A : Type) : Type := (exn + A)%type.

Definition vector := list float.

Definition float_of_nat (n : nat) : float :=
  PrimFloat.of_uint63 (Uint63.of_Z (Z.of_nat n)).

(** The builtin [sum] over floats: it starts from 0 and adds from the left. *)
Definition py_sum (l : list float) : float :=
  fold_left PrimFloat.add l 0%float.

(** What [collection.query] returns, reduced to the two keys read. *)
Record QueryResult : Type := {
  documents : option (list (list str));
  distances : option (list (list float))
}.

Class Externals : Type := {
  (** a chromadb collection, the documents it holds and its [query],
      which may raise *)
  Collection : Type;
  collection_documents : Collection -> list str;
  collection_query : Collection -> vector -> Z -> res QueryResult;
  (** [model.encode] of the sentence-embedding model, on one query and
      on a batch of texts; loading the model may raise *)
  encode_query : str -> res vector;
  encode_batch : list str -> res (list vector);
  (** [np.dot] and [np.mean] *)
  np_dot : vector -> vector -> float;
  np_mean : list float -> float;
  (** the hosted chat completion: the content of the first choice *)
  chat_completion : str -> res str;
  (** [str(e)] *)
  str_of_exn : exn -> str
}.

(** ** config.py *)

Module Config.

Record t : Type := {
  OPENAI_API_KEY : str;
  USE_OPENAI : bool;
  CHUNK_SIZE : nat;
  CHUNK_OVERLAP : nat;
  TOP_K : Z;
  SIMILARITY_THRESHOLD : float;
  MIN_RELEVANCE_SCORE : float
}.

(** The values of [config.py] for a given [OPENAI_API_KEY] of the
    environment. *)
Definition of_env (key : str) : t := {|
  OPENAI_API_KEY := key;
  USE_OPENAI := nonempty key;
  CHUNK_SIZE := 500;
  CHUNK_OVERLAP := 50;
  TOP_K := 3;
  SIMILARITY_THRESHOLD := 0.5;
  MIN_RELEVANCE_SCORE := 0.6
|}.

Definition nl : ascii := "010"%char.

(** [PROMPT_TEMPLATE.format(context=context, question=question)] *)
Definition format_prompt (context question : str) : str :=
  lit "You are a helpful AI assistant that answers questions based on the provided context."
  ++ [nl; nl] ++ lit "Context:" ++ [nl] ++ context ++ [nl; nl]
  ++ lit "Question: " ++ question ++ [nl; nl]
  ++ lit "Please provide a clear and concise answer based only on the context provided. If the context doesn't contain enough information to answer the question, say so."
  ++ [nl; nl] ++ lit "Answer:".

End Config.

(** ** The state and exception monad of the service *)

Section Service.

Context `{Ext : Externals}.
Variable config : Config.t.

(** The module globals of [retrieval.py]: [persisted] is the collection
    the persistent client holds under the configured name, if any
    ([get_collection] raises when there is none); [_collection] is the
    global handle. *)
Record state : Type := {
  persisted : option Collection;
  _collection : option Collection
}.

Definition M (A : Type) : Type := state -> res A * state.

Definition ret {A : Type} (a : A) : M A := fun st => (inr a, st).

Definition raise {A : Type} (e : exn) : M A := fun st => (inl e, st).

Definition bind {A B : Type} (m : M A) (k : A -> M B) : M B :=
  fun st =>
    match m st with
    | (inr a, st') => k a st'
    | (inl e, st') => (inl e, st')
    end.

(** [try: body except Exception as e: handler e] *)
Definition try_except {A : Type} (body : M A) (handler : exn -> M A) : M A :=
  fun st =>
    match body st with
    | (inr a, st') => (inr a, st')
    | (inl e, st') => handler e st'
    end.

(** A call into a collaborator that may raise. *)
Definition call {A : Type} (r : res A) : M A := fun st => (r, st).

Definition get : M state := fun st => (inr st, st).

Definition put (st : state) : M unit := fun _ => (inr tt, st).

End Service.

Arguments ret {Ext A} a.
Arguments raise {Ext A} e.
Arguments call {Ext A} r.

Declare Scope service_scope.
Delimit Scope service_scope with service.
Notation "x <- m ;; k" := (bind m (fun x => k))
  (at level 61, m at next level, right associativity) : service_scope.
Notation "' p <- m ;; k" := (bind m (fun p => k))
  (at level 61, p pattern, m at next level, right associativity)
  : service_scope.
Open Scope service_scope.

(** [x or d] on an optional integer: [None] and [0] are falsy. *)
Definition or_default (x : option Z) (d : Z) : Z :=
  match x with
  | Some k => if (k =? 0)%Z then d else k
  | None => d
  end.

(** ** retrieval.py *)

Module Retrieval.
Section Retrieval.

Context `{Ext : Externals}.
Variable config : Config.t.

Definition load_vector_db : M (option Collection) :=
  st <- get ;;
  match persisted st with
  | Some c =>
      _ <- put {| persisted := persisted st; _collection := Some c |} ;;
      ret (Some c)
  | None => ret None
  end.

(** [results[key][0] if results[key] else []] *)
Definition first_or_empty {A : Type} (x : option (list (list A))) : list A :=
  match x with
  | Some (l :: _) => l
  | _ => []
  end.

Definition to_similarity (p : str * float) : str * float :=
  let '(doc, dist) := p in (doc, (1 - dist)%float).

Definition above_threshold (p : str * float) : bool :=
  let '(doc, sim) := p in
  (Config.SIMILARITY_THRESHOLD config <=? sim)%float.

Definition search_similar (query_embedding : vector) (top_k : option Z)
  : M (list (str * float)) :=
  st <- get ;;
  _ <- match _collection st with
       | None =>
           c <- load_vector_db ;;
           st' <- get ;;
           put {| persisted := persisted st'; _collection := c |}
       | Some _ => ret tt
       end ;;
  st <- get ;;
  match _collection st with
  | None => ret []
  | Some collection =>
      let top_k := or_default top_k (Config.TOP_K config) in
      results <- call (collection_query collection query_embedding top_k) ;;
      let documents := first_or_empty (documents results) in
      let distances := first_or_empty (distances results) in
      let similarities := map to_similarity (combine documents distances) in
      let similarities := filter above_threshold similarities in
      ret similarities
  end.

End Retrieval.
End Retrieval.

(** ** ml_components.py *)

Module MLComponents.

(** The inner loop of [summarize_chunks] over the sentences of one chunk;
    the state is [(summary_sentences, total_length, stopped)], [stopped]
    once [break] has left the loop. *)
Definition summarize_sentence (max_length : nat)
    (st : list str * nat * bool) (sentence : str) : list str * nat * bool :=
  let '(summary_sentences, total_length, stopped) := st in
  if stopped then st
  else
    let sentence := strip sentence in
    if nonempty sentence && (20 <? length sentence) then
      if total_length + length sentence <=? max_length
      then (summary_sentences ++ [sentence],
            total_length + length sentence, false)
      else (summary_sentences, total_length, true)
    else st.

(** The outer loop; the state is [(summary_sentences, total_length,
    stopped)] again, for the outer [break]. *)
Definition summarize_chunk (max_length : nat)
    (st : list str * nat * bool) (chunk : str) : list str * nat * bool :=
  let '(summary_sentences, total_length, stopped) := st in
  if stopped then st
  else
    let '(summary_sentences, total_length, _) :=
      fold_left (summarize_sentence max_length)
        (split_on "."%char chunk) (summary_sentences, total_length, false) in
    (summary_sentences, total_length, max_length <=? total_length).

Definition endswith_dot (s : str) : bool :=
  match rev s with
  | c :: _ => Ascii.eqb c "."%char
  | [] => false
  end.

Definition summarize_chunks (chunks : list str) (max_length : nat) : str :=
  if negb (nonempty chunks) then []
  else
    let '(summary_sentences, _, _) :=
      fold_left (summarize_chunk max_length) chunks ([], 0, false) in
    let summary := join (lit ". ") summary_sentences in
    if nonempty summary && negb (endswith_dot summary)
    then summary ++ lit "."
    else summary.

End MLComponents.

(** ** embeddings.py *)

Module Embeddings.
Section Embeddings.

Context `{Ext : Externals}.

(** [texts[i:i + batch_size] for i in range(0, len(texts), batch_size)];
    the fuel bounds the number of batches. *)
Fixpoint batches_fuel (fuel batch_size : nat) (texts : list str)
  : list (list str) :=
  match fuel with
  | 0 => []
  | S fuel' =>
      match texts with
      | [] => []
      | _ :: _ =>
          firstn batch_size texts
          :: batches_fuel fuel' batch_size (skipn batch_size texts)
      end
  end.

Definition batches (batch_size : nat) (texts : list str) : list (list str) :=
  batches_fuel (length texts) batch_size texts.

(** The loop over the batches, then [np.vstack]. *)
Fixpoint encode_all (bs : list (list str)) : res (list vector) :=
  match bs with
  | [] => inr []
  | b :: r =>
      match encode_batch b with
      | inl e => inl e
      | inr embs =>
          match encode_all r with
          | inl e => inl e
          | inr rest => inr (embs ++ rest)
          end
      end
  end.

Definition create_embeddings (texts : list str)
  : res (list vector * list str) :=
  if negb (nonempty texts) then inr ([], [])
  else
    match encode_all (batches 32 texts) with
    | inl e => inl e
    | inr all_embeddings => inr (all_embeddings, texts)
    end.

Definition create_query_embedding (query : str) : res vector :=
  encode_query query.

End Embeddings.
End Embeddings.

(** ** qa_pipeline.py *)

Module QAPipeline.
Section QAPipeline.

Context `{Ext : Externals}.
Variable config : Config.t.

(** [[w for w in question_lower.split() if len(w) > 3]] *)
Definition question_words (question_lower : str) : list str :=
  filter (fun w => 3 <? length w) (split_ws question_lower).

(** One iteration of [for sentence in sentences]. *)
Definition fallback_step (question_lower : str)
    (relevant_sentences : list str) (sentence : str) : list str :=
  let sentence_lower := lower sentence in
  let question_words := question_words question_lower in
  if existsb (fun word => contains word sentence_lower) question_words
  then relevant_sentences ++ [strip sentence]
  else relevant_sentences.

Definition relevant_sentences (context question : str) : list str :=
  let question_lower := lower question in
  let sentences := split_on "."%char context in
  fold_left (fallback_step question_lower) sentences [].

Definition _fallback_response (context question : str) : str :=
  let relevant_sentences := relevant_sentences context question in
  if nonempty relevant_sentences
  then join (lit ". ") (firstn 2 relevant_sentences) ++ lit "."
  else lit "Based on the provided context: " ++ firstn 200 context
       ++ lit "...".

Definition _get_llm_response (context question : str) : str :=
  let prompt := Config.format_prompt context question in
  if Config.USE_OPENAI config && nonempty (Config.OPENAI_API_KEY config)
  then
    match chat_completion prompt with
    | inr content => strip content
    | inl _ => _fallback_response context question
    end
  else _fallback_response context question.

(** The dictionary [ask] returns. *)
Record Answer : Type := {
  answer : str;
  sources : list str;
  confidence : float;
  num_sources : nat
}.

(** [RAGPipeline.ask]; [vector_db_loaded] is the attribute of [self]. *)
Definition ask (vector_db_loaded : bool) (question : str)
    (top_k : option Z) (use_summarization : bool) : M Answer :=
  if negb vector_db_loaded then
    ret {| answer := lit "Error: Vector database not initialized.";
           sources := [];
           confidence := 0.0;
           num_sources := 0 |}
  else
    let top_k := or_default top_k (Config.TOP_K config) in
    query_embedding <- call (Embeddings.create_query_embedding question) ;;
    retrieved <- Retrieval.search_similar config query_embedding (Some top_k) ;;
    if negb (nonempty retrieved) then
      ret {| answer :=
               lit "I couldn't find relevant information to answer your question.";
             sources := [];
             confidence := 0.0;
             num_sources := 0 |}
    else
      let sources := map fst retrieved in
      let context := join [Config.nl; Config.nl] sources in
      let context :=
        if use_summarization
        then MLComponents.summarize_chunks sources 150
        else context in
      let answer := _get_llm_response context question in
      let avg_confidence :=
        (py_sum (map snd retrieved) / float_of_nat (length retrieved))%float in
      ret {| answer := answer;
             sources := firstn 3 sources;
             confidence := avg_confidence;
             num_sources := length retrieved |}.

End QAPipeline.
End QAPipeline.

(** ** evaluation.py *)

Module Evaluation.
Section Evaluation.

Context `{Ext : Externals}.

Definition calculate_relevance_score (query : str)
    (retrieved_texts : list str) : res float :=
  if negb (nonempty retrieved_texts) then inr 0.0%float
  else
    match Embeddings.create_query_embedding query with
    | inl e => inl e
    | inr query_emb =>
        match Embeddings.create_embeddings retrieved_texts with
        | inl e => inl e
        | inr (retrieved_embs, _) =>
            let similarities := map (np_dot query_emb) retrieved_embs in
            inr (np_mean similarities)
        end
    end.

(** [set(word.lower() for word in text.split() if len(word) > n)] *)
Definition keywords (n : nat) (text : str) : list str :=
  distinct (map lower (filter (fun word => n <? length word) (split_ws text))).

(** [sum(1 for keyword in ks if keyword in text) / len(ks) if ks else 0.0] *)
Definition keyword_ratio (ks : list str) (text : str) : float :=
  let hits := length (filter (fun keyword => contains keyword text) ks) in
  if nonempty ks then (float_of_nat hits / float_of_nat (length ks))%float
  else 0.0%float.

Record RetrievalEval : Type := {
  relevance_score : float;
  coverage : float;
  is_relevant : bool;
  is_complete : bool;
  assessment : str
}.

Definition evaluate_retrieval (query : str) (retrieved_texts : list str)
    (min_score : float) : res RetrievalEval :=
  match calculate_relevance_score query retrieved_texts with
  | inl e => inl e
  | inr relevance_score =>
      let query_keywords := keywords 3 query in
      let retrieved_text := lower (join (lit " ") retrieved_texts) in
      let coverage := keyword_ratio query_keywords retrieved_text in
      let is_relevant := (min_score <=? relevance_score)%float in
      let is_complete := (0.5 <=? coverage)%float in
      inr {| relevance_score := relevance_score;
             coverage := coverage;
             is_relevant := is_relevant;
             is_complete := is_complete;
             assessment :=
               if is_relevant && is_complete then lit "Good"
               else lit "Needs improvement" |}
  end.

Record AnswerEval : Type := {
  has_answer : bool;
  context_usage : float;
  length_score : float;
  overall_quality : str
}.

Definition evaluate_answer_quality (answer query context : str) : AnswerEval :=
  let has_answer := 0 <? length (strip answer) in
  let context_keywords := keywords 4 context in
  let answer_lower := lower answer in
  let context_usage_ratio := keyword_ratio context_keywords answer_lower in
  let answer_length := length (split_ws answer) in
  let length_score :=
    if (10 <=? answer_length) && (answer_length <=? 200)
    then 1.0%float else 0.5%float in
  {| has_answer := has_answer;
     context_usage := context_usage_ratio;
     length_score := length_score;
     overall_quality :=
       if has_answer && (0.3 <? context_usage_ratio)%float then lit "Good"
       else lit "Needs improvement" |}.

Record Report : Type := {
  query : str;
  retrieval_evaluation : RetrievalEval;
  answer_evaluation : AnswerEval;
  overall_score : float;
  recommendation : str
}.

Definition comprehensive_evaluation (query : str)
    (retrieved_texts : list str) (answer : str) : res Report :=
  let context := join [Config.nl; Config.nl] retrieved_texts in
  match evaluate_retrieval query retrieved_texts 0.6 with
  | inl e => inl e
  | inr retrieval_eval =>
      let answer_eval := evaluate_answer_quality answer query context in
      let overall_score :=
        (relevance_score retrieval_eval * 0.5
         + coverage retrieval_eval * 0.2
         + context_usage answer_eval * 0.2
         + length_score answer_eval * 0.1)%float in
      inr {| query := query;
             retrieval_evaluation := retrieval_eval;
             answer_evaluation := answer_eval;
             overall_score := overall_score;
             recommendation :=
               if (0.7 <=? overall_score)%float then lit "Good"
               else lit "Needs improvement" |}
  end.

End Evaluation.
End Evaluation.

(** ** main.py *)

Module Main.
Section Main.

Context `{Ext : Externals}.
Variable config : Config.t.

Record QuestionRequest : Type := {
  question : str;
  top_k : option Z;
  use_summarization : option bool;
  evaluate : option bool
}.

Record QuestionResponse : Type := {
  answer : str;
  sources : list str;
  confidence : float;
  num_sources : nat;
  evaluation : option Evaluation.Report
}.

(** Truthiness of an [Optional[bool]]. *)
Definition truthy (b : option bool) : bool :=
  match b with
  | Some true => true
  | _ => false
  end.

(** The body of the [try] block of [ask_question]. *)
Definition ask_question_body (vector_db_loaded : bool)
    (request : QuestionRequest) : M QuestionResponse :=
  if negb (nonempty (strip (question request))) then
    raise (HTTPException 400 (lit "Question cannot be empty"))
  else
    result <- QAPipeline.ask config vector_db_loaded (question request)
                (top_k request) (truthy (use_summarization request)) ;;
    evaluation <-
      (if truthy (evaluate request) && nonempty (QAPipeline.sources result)
       then
         report <- call (Evaluation.comprehensive_evaluation
                           (question request) (QAPipeline.sources result)
                           (QAPipeline.answer result)) ;;
         ret (Some report)
       else ret None) ;;
    ret {| answer := QAPipeline.answer result;
           sources := QAPipeline.sources result;
           confidence := QAPipeline.confidence result;
           num_sources := QAPipeline.num_sources result;
           evaluation := evaluation |}.

(** [ask_question]: the body under [try], and the handler
    [except Exception as e], which an [HTTPException] raised in the body
    reaches as well, since [HTTPException] derives from [Exception]. *)
Definition ask_question (vector_db_loaded : bool)
    (request : QuestionRequest) : M QuestionResponse :=
  try_except (ask_question_body vector_db_loaded request)
    (fun e =>
       raise (HTTPException 500
                (lit "Internal server error: " ++ str_of_exn e))).

(** The status the HTTP client sees: 200 for a returned response, the
    status code of a raised [HTTPException], 500 for any other
    exception that leaves the handler. *)
Definition http_status {A : Type} (r : res A) : nat :=
  match r with
  | inr _ => 200
  | inl (HTTPException status_code _) => status_code
  | inl (OtherException _) => 500
  end.

End Main.
End Main.

(** ** data_ingestion.py *)

Module DataIngestion.

(** What [PdfReader] makes of a file: opening it may raise, and so may
    [extract_text] on each page. *)
Definition Pdf : Type := res (list (res str)).

(** The loop [for page in reader.pages: text += page.extract_text() + "\n"]. *)
Fixpoint read_pages (pages : list (res str)) (text : str) : res str :=
  match pages with
  | [] => inr text
  | page :: rest =>
      match page with
      | inl e => inl e
      | inr page_text => read_pages rest (text ++ page_text ++ [Config.nl])
      end
  end.

(** [extract_text_from_pdf]: any exception is caught and gives [""]. *)
Definition extract_text_from_pdf (pdf : Pdf) : str :=
  match pdf with
  | inl _ => []
  | inr pages =>
      match read_pages pages [] with
      | inr text => text
      | inl _ => []
      end
  end.

(** The data directory: missing, with what [mkdir] would answer, or
    present with the files [glob("*.pdf")] lists. *)
Inductive DataDir : Type :=
| Missing (mkdir : res unit)
| Present (pdf_files : list Pdf).

(** One iteration of [for pdf_file in pdf_files]. *)
Definition ingest_step (texts : list str) (pdf_file : Pdf) : list str :=
  let text := extract_text_from_pdf pdf_file in
  if nonempty (strip text) then texts ++ [text] else texts.

(** [ingest_pdfs]: the texts, and the directory as the call leaves it. *)
Definition ingest_pdfs (data_dir : DataDir) : res (list str * DataDir) :=
  match data_dir with
  | Missing mkdir =>
      match mkdir with
      | inl e => inl e
      | inr _ => inr ([], Present [])
      end
  | Present pdf_files =>
      if negb (nonempty pdf_files) then inr ([], data_dir)
      else inr (fold_left ingest_step pdf_files [], data_dir)
  end.

End DataIngestion.

(** ** retrieval.py: building the collection *)

(** What the vector store does when a collection is rebuilt:
    [create_collection] gives a collection, or raises, and [add] puts
    embeddings, documents and ids into a collection, or raises. *)
Class Store `{Ext : Externals} : Type := {
  created_collection : res Collection;
  collection_add :
    Collection -> list vector -> list str -> list str -> res Collection
}.

Module VectorDb.
Section VectorDb.

Context `{Sto : Store}.

(** [f"doc_{i}"] *)
Definition doc_id (i : nat) : str :=
  lit "doc_" ++ list_ascii_of_string (NilEmpty.string_of_uint (Nat.to_uint i)).

(** [setup_vector_db], for the configured collection name: the existing
    collection is deleted, a new one is created and filled. The global
    handle and the persisted collection are one object, so that what
    [add] puts in is seen through both. *)
Definition setup_vector_db (embeddings : list vector) (texts : list str)
  : M Collection :=
  st <- get ;;
  _ <- put {| persisted := None; _collection := _collection st |} ;;
  collection <- call created_collection ;;
  _ <- put {| persisted := Some collection;
              _collection := Some collection |} ;;
  let ids := map doc_id (seq 0 (length texts)) in
  filled <- call (collection_add collection embeddings texts ids) ;;
  _ <- put {| persisted := Some filled; _collection := Some filled |} ;;
  ret filled.

End VectorDb.
End VectorDb.

(** ** qa_pipeline.py: construction and document processing *)

Module Pipeline.
Section Pipeline.

Context `{Sto : Store}.
Variable config : Config.t.
Variable encoding : Preprocessing.Encoding.

(** [RAGPipeline.__init__]: the value of [vector_db_loaded]. *)
Definition init : M bool :=
  collection <- Retrieval.load_vector_db ;;
  match collection with
  | Some _ => ret true
  | None => ret false
  end.

(** [RAGPipeline.process_documents]: the new value of [vector_db_loaded]
    and the data directory as the call leaves it. *)
Definition process_documents (vector_db_loaded : bool)
    (data_dir : DataIngestion.DataDir) (force_rebuild : bool)
  : M (bool * DataIngestion.DataDir) :=
  if vector_db_loaded && negb force_rebuild then
    ret (vector_db_loaded, data_dir)
  else
    ingested <- call (DataIngestion.ingest_pdfs data_dir) ;;
    let '(texts, data_dir) := ingested in
    if negb (nonempty texts) then ret (vector_db_loaded, data_dir)
    else
      let chunks :=
        Preprocessing.preprocess_text encoding texts
          (Config.CHUNK_SIZE config) (Config.CHUNK_OVERLAP config) in
      embedded <- call (Embeddings.create_embeddings chunks) ;;
      let '(embeddings, chunks) := embedded in
      _ <- VectorDb.setup_vector_db embeddings chunks ;;
      ret (true, data_dir).

End Pipeline.
End Pipeline.

(** ** ml_components.py: question types *)

Module QuestionTypes.

(** [any(word in question_lower for word in words)] *)
Definition any_in (words : list str) (question_lower : str) : bool :=
  existsb (fun word => contains word question_lower) words.

(** [s.startswith(prefixes)] for a tuple of prefixes. *)
Definition startswith_any (prefixes : list str) (s : str) : bool :=
  existsb (fun prefix => startswith prefix s) prefixes.

Definition classify_question_type (question : str) : str :=
  let question_lower := lower question in
  if any_in [lit "what is"; lit "who is"; lit "when"; lit "where";
             lit "what are"] question_lower
  then lit "factual"
  else if any_in [lit "how"; lit "why"] question_lower
  then lit "analytical"
  else if any_in [lit "compare"; lit "difference"; lit "versus"; lit "vs";
                  lit "better"] question_lower
  then lit "comparative"
  else if any_in [lit "opinion"; lit "think"; lit "believe"; lit "should"]
            question_lower
  then lit "opinion"
  else if startswith_any [lit "is "; lit "are "; lit "can "; lit "do ";
                          lit "does "; lit "did "] (strip question_lower)
  then lit "yes_no"
  else lit "general".

(** The dictionary [type_specific_instructions]. *)
Definition type_specific_instructions : list (str * str) :=
  [(lit "factual",
    lit "Provide a clear, factual answer based on the context.");
   (lit "analytical",
    lit "Explain the reasoning and provide a detailed analysis.");
   (lit "comparative",
    lit "Compare and contrast the relevant information.");
   (lit "opinion",
    lit "Present the information objectively, noting it's based on the provided context.");
   (lit "yes_no",
    lit "Provide a clear yes or no answer, followed by explanation.");
   (lit "general",
    lit "Provide a comprehensive answer based on the context.")].

(** [d.get(key, "")] *)
Fixpoint dict_get (d : list (str * str)) (key : str) : str :=
  match d with
  | [] => []
  | (k, v) :: rest => if str_eqb k key then v else dict_get rest key
  end.

Definition get_question_specific_prompt (question context : str) : str :=
  let question_type := classify_question_type question in
  let base_prompt := Config.format_prompt context question in
  let instruction := dict_get type_specific_instructions question_type in
  if nonempty instruction
  then base_prompt ++ [Config.nl; Config.nl] ++ lit "Note: " ++ instruction
  else base_prompt.

End QuestionTypes.

(** ** main.py: the other endpoints *)

Module Endpoints.
Section Endpoints.

Context `{Sto : Store}.
Variable config : Config.t.
Variable encoding : Preprocessing.Encoding.

(** The body of [GET /health]. *)
Record HealthResponse : Type := {
  status : str;
  vector_db_loaded : bool
}.

Definition health_check (loaded : bool) : HealthResponse :=
  {| status := lit "healthy"; vector_db_loaded := loaded |}.

(** The body of [POST /process], with the attribute [vector_db_loaded] of
    the pipeline as the call leaves it. *)
Record ProcessResponse : Type := {
  process_status : str;
  message : str;
  process_vector_db_loaded : bool
}.

(** [process_documents(force_rebuild)], on the data directory ["data"]:
    the response, the pipeline's [vector_db_loaded] and the directory. *)
Definition process_documents (loaded : bool)
    (data_dir : DataIngestion.DataDir) (force_rebuild : bool)
  : M (ProcessResponse * DataIngestion.DataDir) :=
  try_except
    (processed <- Pipeline.process_documents config encoding loaded data_dir
                    force_rebuild ;;
     let '(loaded, data_dir) := processed in
     ret ({| process_status := lit "success";
             message := lit "Documents processed successfully";
             process_vector_db_loaded := loaded |}, data_dir))
    (fun e =>
       raise (HTTPException 500
                (lit "Error processing documents: " ++ str_of_exn e))).

End Endpoints.
End Endpoints.

(** ** Contracts and test doubles *)

(** The contract of the vector store that retrieval relies on: a query
    that is answered is answered with documents the collection holds. *)
Definition query_returns_held_documents `{Ext : Externals} : Prop :=
  forall (c : Collection) (e : vector) (k : Z) (r : QueryResult) (doc : str),
    collection_query c e k = inr r ->
    In doc (Retrieval.first_or_empty (documents r)) ->
    In doc (collection_documents c).

(** The collection a query is answered from: the global handle or, when
    there is none yet, the persisted collection. *)
Definition active_collection `{Ext : Externals} (st : state)
  : option Collection :=
  match _collection st with
  | Some c => Some c
  | None => persisted st
  end.

Module Double.

(** A store double: a collection is the list of its documents, each with
    the cosine distance the store reports for it. As the vector database
    does, a query refuses a number of results that is negative or zero,
    and otherwise answers with the first [k] documents. *)
Definition canned_query (c : list (str * float)) (e : vector) (k : Z)
  : res QueryResult :=
  if (k <=? 0)%Z
  then inl (OtherException
              (lit "Number of requested results cannot be negative, or zero."))
  else
    let hits := firstn (Z.to_nat k) c in
    inr {| documents := Some [map fst hits];
           distances := Some [map snd hits] |}.

Definition dot (a b : vector) : float :=
  py_sum (map (fun p => (fst p * snd p)%float) (combine a b)).

Definition mean (l : list float) : float :=
  (py_sum l / float_of_nat (length l))%float.

Definition describe (e : exn) : str :=
  match e with
  | HTTPException _ detail => detail
  | OtherException message => message
  end.

(** No hosted model: every chat completion raises. *)
Definition externals : Externals := {|
  Collection := list (str * float);
  collection_documents := map fst;
  collection_query := canned_query;
  encode_query := fun _ => inr [1.0%float; 0.0%float];
  encode_batch := fun b => inr (map (fun _ => [0.75%float; 0.5%float]) b);
  np_dot := dot;
  np_mean := mean;
  chat_completion := fun _ => inl (OtherException (lit "no API key"));
  str_of_exn := describe
|}.

Definition config : Config.t := Config.of_env [].

Definition animal_documents : list (str * float) :=
  [(lit "Cats purr.", 0.0%float); (lit "Dogs bark.", 0.125%float);
   (lit "Birds sing.", 0.25%float); (lit "Fish swim.", 0.5%float);
   (lit "Bees hum.", 0.75%float)].

(** What retrieval keeps of [animal_documents] at threshold 0.5. *)
Definition retrieved_animals : list (str * float) :=
  [(lit "Cats purr.", 1.0%float); (lit "Dogs bark.", 0.875%float);
   (lit "Birds sing.", 0.75%float); (lit "Fish swim.", 0.5%float)].

Definition loaded (c : list (str * float)) : @state externals :=
  @Build_state externals (Some c) (Some c).

Definition absent : @state externals :=
  @Build_state externals None None.

(** A deployment whose embedding model cannot be loaded. *)
Definition offline : Externals := {|
  Collection := list (str * float);
  collection_documents := map fst;
  collection_query := canned_query;
  encode_query := fun _ => inl (OtherException (lit "model not available"));
  encode_batch := fun _ => inl (OtherException (lit "model not available"));
  np_dot := dot;
  np_mean := mean;
  chat_completion := fun _ => inl (OtherException (lit "no API key"));
  str_of_exn := describe
|}.

Definition store_loaded (c : list (str * float)) : @state externals :=
  @Build_state externals (Some c) (Some c).

Definition offline_absent : @state offline := @Build_state offline None None.

(** A configuration with an API key. *)
Definition keyed_config : Config.t := Config.of_env (lit "sk-test").

(** A deployment whose hosted model answers every prompt the same. *)
Definition hosted : Externals := {|
  Collection := list (str * float);
  collection_documents := map fst;
  collection_query := canned_query;
  encode_query := fun _ => inr [1.0%float; 0.0%float];
  encode_batch := fun b => inr (map (fun _ => [0.75%float; 0.5%float]) b);
  np_dot := dot;
  np_mean := mean;
  chat_completion := fun _ => inr (lit "  Cats purr.  ");
  str_of_exn := describe
|}.

(** A store double for rebuilding: a new collection is empty, and [add]
    refuses an empty batch, as the vector database does, and otherwise
    appends the documents, each at the canned distance 0.25. *)
Definition store : @Store externals :=
  @Build_Store externals
    (inr (@nil (str * float)))
    (fun (c : list (str * float)) _ docs _ =>
       if negb (nonempty docs)
       then inl (OtherException (lit "empty batch"))
       else inr (c ++ map (fun d => (d, 0.25%float)) docs)).

End Double.

(** ** Vocabulary of the statements *)

(** What the store does with the query of [search_similar]: it answers,
    or it raises. *)
Definition store_answer `{Ext : Externals} (config : Config.t)
    (c : Collection) (e : vector) (top_k : option Z) : res QueryResult :=
  collection_query c e (or_default top_k (Config.TOP_K config)).

(** The (document, distance) pairs of an answer of the store. *)
Definition hits (r : QueryResult) : list (str * float) :=
  combine (Retrieval.first_or_empty (documents r))
          (Retrieval.first_or_empty (distances r)).

(** The number of tokens of a list of chunks, or of sentences, counted one
    by one. *)
Definition total_tokens (encoding : Preprocessing.Encoding)
    (pieces : list str) : nat :=
  list_sum (map (Preprocessing.count_tokens encoding) pieces).

(** The number of words of an answer, [len(answer.split())]. *)
Definition word_count (answer : str) : nat := length (split_ws answer).

(** [p] occurs in [s] as a substring. *)
Definition occurs_in (p s : str) : Prop :=
  exists a b : str, s = a ++ p ++ b.

(** A keyword of a question: one of the whitespace-separated tokens of the
    lower-cased question, longer than 3 characters. *)
Definition is_keyword (question word : str) : Prop :=
  In word (split_ws (lower question)) /\ 3 < length word.

(** A sentence matches a question when a keyword of the question occurs in
    the lower-cased sentence. *)
Definition sentence_matches (question sentence : str) : Prop :=
  exists word : str,
    is_keyword question word /\ occurs_in word (lower sentence).

(** The test the fallback answerer applies to one sentence. *)
Definition matchesb (question sentence : str) : bool :=
  existsb (fun word => contains word (lower sentence))
    (QAPipeline.question_words (lower question)).

(** The sentences the chunker accumulates: the pieces of the cleaned text,
    stripped, the empty ones left out. *)
Definition sentences_of (text : str) : list str :=
  filter nonempty (map strip (split_sentences (Preprocessing.clean_text text))).

Definition total_length (pieces : list str) : nat :=
  list_sum (map (@length ascii) pieces).

(** Every whitespace character of [s] is one space followed by a
    character that is not whitespace. *)
Fixpoint spaced (s : str) : bool :=
  match s with
  | [] => true
  | c :: r =>
      (if isspace c then Ascii.eqb c " "%char && starts_nonspace r else true)
      && spaced r
  end.

(** A text in which words are separated by single spaces, with no
    whitespace at either end. *)
Definition single_spaced (s : str) : bool :=
  spaced s && (starts_nonspace s || negb (nonempty s)).

(** A piece that is not empty and neither starts nor ends with whitespace. *)
Definition tight (p : str) : bool :=
  starts_nonspace p && starts_nonspace (rev p).

Definition starts_space (s : str) : bool :=
  match s with
  | [] => false
  | c :: _ => isspace c
  end.

(** Every whitespace character of [s] is a space that no whitespace
    follows. *)
Fixpoint loose (s : str) : bool :=
  match s with
  | [] => true
  | c :: r =>
      (if isspace c then Ascii.eqb c " "%char && negb (starts_space r)
       else true)
      && loose r
  end.

(** [p] is held by the loop state of the chunker: it occurs in a chunk
    already emitted or in a piece of the chunk under construction. *)
Definition held (st : Preprocessing.loop_state) (p : str) : Prop :=
  let '(chunks, current, _) := st in
  (exists chunk, In chunk chunks /\ occurs_in p chunk) \/
  (exists piece, In piece current /\ occurs_in p piece).

(** [p] is made of characters of [src] and of spaces. *)
Definition made_of (src p : str) : Prop :=
  forall c, In c p -> c = " "%char \/ In c src.

(** Every chunk emitted and every piece under construction is made of
    the characters of [src]. *)
Definition all_made_of (src : str) (st : Preprocessing.loop_state) : Prop :=
  let '(chunks, current, _) := st in
  Forall (made_of src) chunks /\ Forall (made_of src) current.

(** The contract of a sentence-embedding model that encodes each text on
    its own: a batch is encoded text by text. *)
Definition encodes_each_text `{Ext : Externals} (f : str -> vector) : Prop :=
  forall batch : list str, encode_batch batch = inr (map f batch).


(** The six question types. *)
Definition question_types : list str :=
  [lit "factual"; lit "analytical"; lit "comparative"; lit "opinion";
   lit "yes_no"; lit "general"].

(** What the loops of [summarize_chunks] keep true of the sentences picked
    so far and of their running total. *)
Definition summary_within (max_length : nat) (st : list str * nat * bool)
  : Prop :=
  let '(sentences, total, _) := st in
  total = total_length sentences /\ total <= max_length
  /\ 21 * length sentences <= total.

(** The record [ask] returns when the vector database is not loaded. *)
Definition not_initialized : QAPipeline.Answer :=
  {| QAPipeline.answer := lit "Error: Vector database not initialized.";
     QAPipeline.sources := [];
     QAPipeline.confidence := 0.0;
     QAPipeline.num_sources := 0 |}.

(** The response that carries a record of [ask], with or without an
    evaluation. *)
Definition response_of (record : QAPipeline.Answer)
    (evaluation : option Evaluation.Report) : Main.QuestionResponse :=
  {| Main.answer := QAPipeline.answer record;
     Main.sources := QAPipeline.sources record;
     Main.confidence := QAPipeline.confidence record;
     Main.num_sources := QAPipeline.num_sources record;
     Main.evaluation := evaluation |}.

(** A text that is not blank. *)
Definition nonblank (text : str) : bool := nonempty (strip text).

(** The contracts of the vector store that rebuilding relies on: a
    collection just created holds no document, and [add] appends the
    documents it is given to those the collection holds. *)
Definition created_is_empty `{Sto : Store} : Prop :=
  forall c, created_collection = inr c -> collection_documents c = [].

Definition add_appends_documents `{Sto : Store} : Prop :=
  forall c embeddings docs ids c',
    collection_add c embeddings docs ids = inr c' ->
    collection_documents c' = collection_documents c ++ docs.

(** The text of a readable PDF: its pages, a line feed after each. *)
Definition pages_text (pages : list str) : str :=
  concat (map (fun page => page ++ [Config.nl]) pages).

(** ** Sample inputs *)

Module Samples.

Definition blank_request : Main.QuestionRequest :=
  {| Main.question := lit "   ";
     Main.top_k := None;
     Main.use_summarization := Some false;
     Main.evaluate := Some false |}.

Definition report_line : str :=
  lit "Revenue grew 12% in Q3 @ constant currency, driven by cloud services.".

Definition abc : str := lit "A. B. C.".

(** A form line as text extraction leaves it, 47 characters long. *)
Definition form_line : str :=
  lit "Name:          Alice     Role:         Engineer".

(** Two sentences, 53 characters. *)
Definition two_sentences : str :=
  lit "Chunking keeps sentences whole. Overlap adds context.".

(** A sentence of 80 characters, 20 tokens at 4 characters a token. *)
Definition sentence : str :=
  lit "The quarterly report lists revenue, costs and margins for each product line now.".

(** [n] copies of [sentence], separated by single spaces. *)
Definition sentences (n : nat) : str := join (lit " ") (repeat sentence n).

(** Three files: a readable one, one that cannot be opened and one whose
    second page cannot be read. *)
Definition three_pdfs : list DataIngestion.Pdf :=
  [inr [inr two_sentences; inr sentence];
   inl (OtherException (lit "not a PDF"));
   inr [inr two_sentences; inl (OtherException (lit "bad page"))]].

(** A data directory with one file whose text is too short for a chunk. *)
Definition short_pdfs : list DataIngestion.Pdf := [inr [inr (lit "Hi.")]].

Definition cat_question : str := lit "What do cats do?".

Definition cat_request : Main.QuestionRequest :=
  {| Main.question := cat_question;
     Main.top_k := None;
     Main.use_summarization := None;
     Main.evaluate := Some true |}.

Definition cat_answer : str := lit "Cats purr.".

Definition cat_texts : list str := [lit "Cats purr."; lit "Dogs bark."].

End Samples.

(** * Theorems *)

(** ** Comparison of floats *)

Lemma SFcompare_antisym (a b : spec_float) (c : comparison) :
  SFcompare a b = Some c -> SFcompare b a = Some (CompOpp c).
Proof.
  destruct a as [sa|sa| |sa ma ea], b as [sb|sb| |sb mb eb]; simpl;
    try discriminate;
    try (intros H; injection H as <-;
         repeat match goal with s : bool |- _ => destruct s end;
         reflexivity).
  intros H; injection H as <-. f_equal.
  change (Pos.compare_cont Eq mb ma) with (Pos.compare mb ma).
  change (Pos.compare_cont Eq ma mb) with (Pos.compare ma mb).
  rewrite (Z.compare_antisym ea eb), (Pos.compare_antisym ma mb).
  destruct sa, sb, (ea ?= eb)%Z, (ma ?= mb)%positive; reflexivity.
Qed.

(** [y >= x] excludes [y < x], for all floats, NaN included. *)
Lemma float_leb_not_ltb (x y : float) :
  (x <=? y)%float = true -> (y <? x)%float = false.
Proof.
  rewrite FloatAxioms.leb_spec, FloatAxioms.ltb_spec. unfold SFleb, SFltb.
  destruct (SFcompare (Prim2SF x) (Prim2SF y)) as [c|] eqn:E;
    [|discriminate].
  rewrite (@SFcompare_antisym _ _ _ E). destruct c; simpl; congruence.
Qed.

(** ** Retrieval *)

Section RetrievalFacts.

Context `{Ext : Externals}.
Variable config : Config.t.

Lemma search_similar_unfold (e : vector) (top_k : option Z) (st : state) :
  Retrieval.search_similar config e top_k st =
  match active_collection st with
  | Some c =>
      (match store_answer config c e top_k with
       | inl ex => inl ex
       | inr r =>
           inr (filter (Retrieval.above_threshold config)
                  (map Retrieval.to_similarity (hits r)))
       end,
       {| persisted := persisted st; _collection := Some c |})
  | None => (inr [], {| persisted := persisted st; _collection := None |})
  end.
Proof.
  unfold store_answer.
  destruct st as [p [c|]]; cbn [active_collection persisted _collection].
  - unfold Retrieval.search_similar, bind, get, put, call, ret.
    cbn [persisted _collection].
    destruct (collection_query c e (or_default top_k (Config.TOP_K config)));
      reflexivity.
  - destruct p as [c|]; [|reflexivity].
    unfold Retrieval.search_similar, Retrieval.load_vector_db,
      bind, get, put, call, ret.
    cbn [persisted _collection].
    destruct (collection_query c e (or_default top_k (Config.TOP_K config)));
      reflexivity.
Qed.

Lemma first_or_empty_no_documents (c : Collection) (e : vector) (k : Z)
    (r : QueryResult) :
  query_returns_held_documents ->
  collection_documents c = [] ->
  collection_query c e k = inr r ->
  Retrieval.first_or_empty (documents r) = [].
Proof.
  intros Hq Hc Hr.
  destruct (Retrieval.first_or_empty (documents r)) as [|doc docs] eqn:E;
    [reflexivity|].
  assert (Hin : In doc (collection_documents c)).
  { apply (Hq c e k r doc Hr). rewrite E. left. reflexivity. }
  rewrite Hc in Hin. destruct Hin.
Qed.

(** What [search_similar] returns from an answer of the store. *)
Lemma search_similar_answered (e : vector) (top_k : option Z) (st : state)
    (c : Collection) (r : QueryResult) :
  active_collection st = Some c ->
  store_answer config c e top_k = inr r ->
  Retrieval.search_similar config e top_k st =
  (inr (filter (Retrieval.above_threshold config)
          (map Retrieval.to_similarity (hits r))),
   {| persisted := persisted st; _collection := Some c |}).
Proof.
  intros Hact Hr. rewrite search_similar_unfold, Hact, Hr. reflexivity.
Qed.

(** An exception of the store leaves [search_similar] as it is. *)
Lemma search_similar_raises (e : vector) (top_k : option Z) (st : state)
    (c : Collection) (ex : exn) :
  active_collection st = Some c ->
  store_answer config c e top_k = inl ex ->
  Retrieval.search_similar config e top_k st =
  (inl ex, {| persisted := persisted st; _collection := Some c |}).
Proof.
  intros Hact Hr. rewrite search_similar_unfold, Hact, Hr. reflexivity.
Qed.

(** C1, amended. Without a vector store, [search_similar] returns the empty
    list and does not raise. With a store that answers the query,
    whatever the query embedding, the requested count and the configured
    threshold, it returns the pairs [(doc, 1 - dist)], for the pairs
    [(doc, dist)] of the answer, that have [1 - dist >=
    SIMILARITY_THRESHOLD], in the order of the answer: every pair returned
    has [sim >= SIMILARITY_THRESHOLD], hence not [sim <
    SIMILARITY_THRESHOLD], and the list is empty when the store holds no
    documents. When the store raises, [search_similar] raises the same
    exception, on an empty store too. *)
Theorem search_similar_threshold (e : vector) (top_k : option Z)
    (st : state) :
  query_returns_held_documents ->
  (active_collection st = None ->
   Retrieval.search_similar config e top_k st = (inr [], st)) /\
  (forall c r,
     active_collection st = Some c ->
     store_answer config c e top_k = inr r ->
     exists result : list (str * float),
       Retrieval.search_similar config e top_k st
         = (inr result, {| persisted := persisted st; _collection := Some c |})
       /\ result = filter (fun p => (Config.SIMILARITY_THRESHOLD config
                                      <=? snd p)%float)
                     (map (fun p => (fst p, (1 - snd p)%float)) (hits r))
       /\ (forall doc sim, In (doc, sim) result ->
             (Config.SIMILARITY_THRESHOLD config <=? sim)%float = true /\
             (sim <? Config.SIMILARITY_THRESHOLD config)%float = false /\
             exists dist, In (doc, dist) (hits r) /\ sim = (1 - dist)%float)
       /\ (collection_documents c = [] -> result = [])) /\
  (forall c ex,
     active_collection st = Some c ->
     store_answer config c e top_k = inl ex ->
     Retrieval.search_similar config e top_k st
       = (inl ex, {| persisted := persisted st; _collection := Some c |})).
Proof.
  intros Hq. split; [|split].
  - intros Hact. rewrite search_similar_unfold, Hact.
    destruct st as [p [c|]]; [discriminate|].
    cbn [active_collection persisted _collection] in Hact. subst p.
    reflexivity.
  - intros c r Hact Hr.
    rewrite (search_similar_answered e top_k st Hact Hr).
    eexists. split; [reflexivity|].
    assert (Hsame :
      filter (Retrieval.above_threshold config)
        (map Retrieval.to_similarity (hits r))
      = filter (fun p => (Config.SIMILARITY_THRESHOLD config <=? snd p)%float)
          (map (fun p => (fst p, (1 - snd p)%float)) (hits r))).
    { induction (hits r) as [|[doc dist] l IH]; [reflexivity|].
      cbn [map filter Retrieval.to_similarity Retrieval.above_threshold
           fst snd].
      rewrite IH. reflexivity. }
    split; [exact Hsame|]. split.
    + intros doc sim Hin.
      apply filter_In in Hin. destruct Hin as [Hin Hthr].
      split; [exact Hthr|].
      split; [exact (@float_leb_not_ltb _ _ Hthr)|].
      apply in_map_iff in Hin. destruct Hin as [[doc' dist] [Heq Hin]].
      simpl in Heq. inversion Heq; subst.
      exists dist. split; [exact Hin | reflexivity].
    + intros Hempty. unfold hits.
      rewrite (@first_or_empty_no_documents c e _ r Hq Hempty Hr).
      reflexivity.
  - intros c ex Hact Hr. exact (search_similar_raises e top_k st Hact Hr).
Qed.

End RetrievalFacts.

Lemma canned_query_sound : @query_returns_held_documents Double.externals.
Proof.
  intros c e k r doc. simpl. unfold Double.canned_query.
  destruct (k <=? 0)%Z; [discriminate|].
  intros Hr. inversion Hr; subst r. clear Hr. simpl.
  intros Hin. apply in_map_iff in Hin. destruct Hin as [p [Hp Hin]].
  apply in_map_iff. exists p. split; [exact Hp|].
  rewrite <- (firstn_skipn (Z.to_nat k) c). apply in_or_app. left. exact Hin.
Qed.

Lemma search_similar_threshold_witness :
  Retrieval.search_similar Double.config [1.0%float; 0.0%float] None
    Double.absent = (inr [], Double.absent)
  /\ (exists result,
        Retrieval.search_similar Double.config [1.0%float; 0.0%float]
          (Some 5%Z) (Double.loaded Double.animal_documents)
          = (inr result, Double.loaded Double.animal_documents)
        /\ result = Double.retrieved_animals
        /\ ~ In (lit "Bees hum.") (map fst result))
  /\ Retrieval.search_similar Double.config [1.0%float; 0.0%float] None
       (Double.loaded []) = (inr [], Double.loaded [])
  /\ Retrieval.search_similar Double.config [1.0%float; 0.0%float]
       (Some (-1)%Z) (Double.loaded Double.animal_documents)
     = (inl (OtherException
               (lit "Number of requested results cannot be negative, or zero.")),
        Double.loaded Double.animal_documents).
Proof.
  split; [|split; [|split]].
  - exact (proj1 (@search_similar_threshold Double.externals Double.config
                    [1.0%float; 0.0%float] None Double.absent
                    canned_query_sound) eq_refl).
  - destruct (proj1 (proj2 (@search_similar_threshold Double.externals
                              Double.config [1.0%float; 0.0%float]
                              (Some 5%Z)
                              (Double.loaded Double.animal_documents)
                              canned_query_sound))
                Double.animal_documents _ eq_refl eq_refl)
      as [result [Hrun [Hres _]]].
    exists result. split; [exact Hrun|]. rewrite Hres. split.
    + vm_compute. reflexivity.
    + vm_compute. intros H.
      repeat (destruct H as [H | H]; [discriminate H|]). exact H.
  - destruct (proj1 (proj2 (@search_similar_threshold Double.externals
                              Double.config [1.0%float; 0.0%float] None
                              (Double.loaded []) canned_query_sound))
                [] _ eq_refl eq_refl)
      as [result [Hrun [_ [_ Hempty]]]].
    rewrite Hrun, (Hempty eq_refl). reflexivity.
  - exact (proj2 (proj2 (@search_similar_threshold Double.externals
                           Double.config [1.0%float; 0.0%float]
                           (Some (-1)%Z)
                           (Double.loaded Double.animal_documents)
                           canned_query_sound))
             Double.animal_documents _ eq_refl eq_refl).
Defined.

(** C1, as first stated, fails: on a store that holds no documents a
    request for -1 results is refused by the store, and [search_similar]
    raises instead of returning the empty list; so does [ask], which hands
    the count over as it is. *)
Theorem search_similar_empty_store_raises :
  @collection_documents Double.externals [] = [] /\
  fst (Retrieval.search_similar Double.config [1.0%float; 0.0%float]
         (Some (-1)%Z) (Double.loaded []))
    = inl (OtherException
             (lit "Number of requested results cannot be negative, or zero."))
  /\ fst (QAPipeline.ask Double.config true (lit "What do cats do?")
            (Some (-1)%Z) false (Double.loaded []))
     = inl (OtherException
              (lit "Number of requested results cannot be negative, or zero.")).
Proof. vm_compute. repeat split; reflexivity. Qed.

(** ** The question-answering pipeline *)

Section PipelineFacts.

Context `{Ext : Externals}.
Variable config : Config.t.

(** [ask] on a loaded pipeline, once the query is embedded and retrieval
    has answered. *)
Lemma ask_after_retrieval (question : str) (top_k : option Z)
    (use_summarization : bool) (st st' : state) (e : vector)
    (retrieved : list (str * float)) :
  Embeddings.create_query_embedding question = inr e ->
  Retrieval.search_similar config e
    (Some (or_default top_k (Config.TOP_K config))) st
    = (inr retrieved, st') ->
  QAPipeline.ask config true question top_k use_summarization st =
  (if negb (nonempty retrieved) then
     ret {| QAPipeline.answer :=
              lit "I couldn't find relevant information to answer your question.";
            QAPipeline.sources := [];
            QAPipeline.confidence := 0.0;
            QAPipeline.num_sources := 0 |}
   else
     let sources := map fst retrieved in
     let context :=
       if use_summarization
       then MLComponents.summarize_chunks sources 150
       else join [Config.nl; Config.nl] sources in
     ret {| QAPipeline.answer :=
              QAPipeline._get_llm_response config context question;
            QAPipeline.sources := firstn 3 sources;
            QAPipeline.confidence :=
              (py_sum (map snd retrieved)
               / float_of_nat (length retrieved))%float;
            QAPipeline.num_sources := length retrieved |}) st'.
Proof.
  intros Hemb Hsearch.
  unfold QAPipeline.ask. cbv beta iota delta [negb].
  unfold bind at 1. unfold call. rewrite Hemb. cbv beta iota.
  unfold bind at 1. rewrite Hsearch.
  destruct retrieved; reflexivity.
Qed.

(** C6. When the pipeline is loaded, the question is embedded and retrieval
    returns no chunk, [ask] returns (it does not raise) the record with the
    "couldn't find relevant information" answer, no sources, confidence 0.0
    and [num_sources] 0. *)
Theorem ask_empty_retrieval (question : str) (top_k : option Z)
    (use_summarization : bool) (st st' : state) (e : vector) :
  Embeddings.create_query_embedding question = inr e ->
  Retrieval.search_similar config e
    (Some (or_default top_k (Config.TOP_K config))) st = (inr [], st') ->
  QAPipeline.ask config true question top_k use_summarization st =
  (inr {| QAPipeline.answer :=
            lit "I couldn't find relevant information to answer your question.";
          QAPipeline.sources := [];
          QAPipeline.confidence := 0.0;
          QAPipeline.num_sources := 0 |}, st').
Proof.
  intros Hemb Hsearch.
  rewrite (ask_after_retrieval question top_k use_summarization st Hemb Hsearch).
  reflexivity.
Qed.

(** C7. When the pipeline is loaded, the question is embedded and retrieval
    returns a non-empty list, [ask] returns a record whose sources are the
    first three retrieved chunks (so at most 3), whose confidence is the sum
    of the similarity scores of all retrieved chunks divided by their
    number, and whose [num_sources] is the number of retrieved chunks. *)
Theorem ask_record_of_retrieval (question : str) (top_k : option Z)
    (use_summarization : bool) (st st' : state) (e : vector)
    (retrieved : list (str * float)) :
  Embeddings.create_query_embedding question = inr e ->
  Retrieval.search_similar config e
    (Some (or_default top_k (Config.TOP_K config))) st
    = (inr retrieved, st') ->
  retrieved <> [] ->
  exists record : QAPipeline.Answer,
    QAPipeline.ask config true question top_k use_summarization st
      = (inr record, st') /\
    QAPipeline.sources record = firstn 3 (map fst retrieved) /\
    length (QAPipeline.sources record) <= 3 /\
    QAPipeline.confidence record =
      (py_sum (map snd retrieved) / float_of_nat (length retrieved))%float /\
    QAPipeline.num_sources record = length retrieved.
Proof.
  intros Hemb Hsearch Hne.
  rewrite (ask_after_retrieval question top_k use_summarization st Hemb Hsearch).
  destruct retrieved as [|r rs]; [contradiction|].
  cbv beta iota delta [negb nonempty].
  eexists. split; [reflexivity|].
  cbn [QAPipeline.sources QAPipeline.confidence QAPipeline.num_sources].
  split; [reflexivity|]. split; [apply firstn_le_length|].
  split; reflexivity.
Qed.

End PipelineFacts.

Lemma ask_empty_retrieval_witness :
  QAPipeline.ask Double.config true (lit "What do cats do?") None false
    Double.absent =
  (inr {| QAPipeline.answer :=
            lit "I couldn't find relevant information to answer your question.";
          QAPipeline.sources := [];
          QAPipeline.confidence := 0.0;
          QAPipeline.num_sources := 0 |}, Double.absent).
Proof.
  apply (@ask_empty_retrieval Double.externals Double.config
           (lit "What do cats do?") None false Double.absent Double.absent
           [1.0%float; 0.0%float]); reflexivity.
Defined.

Lemma ask_record_of_retrieval_witness :
  exists record : QAPipeline.Answer,
    QAPipeline.ask Double.config true (lit "What do cats do?") (Some 5%Z)
      false (Double.loaded Double.animal_documents)
      = (inr record, Double.loaded Double.animal_documents) /\
    QAPipeline.sources record = firstn 3 (map fst Double.retrieved_animals) /\
    length (QAPipeline.sources record) <= 3 /\
    QAPipeline.confidence record =
      (py_sum (map snd Double.retrieved_animals)
       / float_of_nat (length Double.retrieved_animals))%float /\
    QAPipeline.num_sources record = length Double.retrieved_animals.
Proof.
  apply (@ask_record_of_retrieval Double.externals Double.config
           (lit "What do cats do?") (Some 5%Z) false
           (Double.loaded Double.animal_documents)
           (Double.loaded Double.animal_documents)
           [1.0%float; 0.0%float] Double.retrieved_animals).
  - reflexivity.
  - vm_compute. reflexivity.
  - discriminate.
Defined.

(** With four chunks retrieved, the confidence is the mean over the four,
    0.78125, and not the mean 0.875 over the three returned sources. *)
Example ask_confidence_over_all_retrieved :
  let r := fst (QAPipeline.ask Double.config true (lit "What do cats do?")
                  (Some 5%Z) false (Double.loaded Double.animal_documents)) in
  match r with
  | inr record =>
      QAPipeline.num_sources record = 4 /\
      length (QAPipeline.sources record) = 3 /\
      QAPipeline.confidence record = 0.78125%float /\
      (py_sum [1.0; 0.875; 0.75] / 3)%float = 0.875%float
  | inl _ => False
  end.
Proof. vm_compute. repeat split; reflexivity. Qed.

(** ** Evaluation heuristics *)

Section EvaluationFacts.

Context `{Ext : Externals}.

Lemma half_is_not_one : 0.5%float <> 1.0%float.
Proof.
  intros H. apply (f_equal (fun x => (x <? 1.0)%float)) in H.
  vm_compute in H. discriminate H.
Qed.

Lemma length_score_binary (answer query context : str) :
  Evaluation.length_score
    (Evaluation.evaluate_answer_quality answer query context) =
  if (10 <=? word_count answer) && (word_count answer <=? 200)
  then 1.0%float else 0.5%float.
Proof. reflexivity. Qed.

(** C8. Whenever the relevance score is computed (the embedding model
    answers), [comprehensive_evaluation] returns a report whose overall
    score is relevance * 0.5 + coverage * 0.2 + context usage * 0.2 +
    length score * 0.1, where the length score takes two values, 1.0 for an
    answer of 10 to 200 words and 0.5 otherwise, and whose recommendation
    is "Good" exactly when the overall score is at least 0.7. *)
Theorem comprehensive_evaluation_score (query : str) (texts : list str)
    (answer : str) (rel : float) :
  Evaluation.calculate_relevance_score query texts = inr rel ->
  exists report : Evaluation.Report,
    Evaluation.comprehensive_evaluation query texts answer = inr report /\
    let relevance :=
      Evaluation.relevance_score (Evaluation.retrieval_evaluation report) in
    let coverage :=
      Evaluation.coverage (Evaluation.retrieval_evaluation report) in
    let usage :=
      Evaluation.context_usage (Evaluation.answer_evaluation report) in
    let length_score :=
      Evaluation.length_score (Evaluation.answer_evaluation report) in
    relevance = rel /\
    coverage =
      Evaluation.keyword_ratio (Evaluation.keywords 3 query)
        (lower (join (lit " ") texts)) /\
    usage =
      Evaluation.keyword_ratio
        (Evaluation.keywords 4 (join [Config.nl; Config.nl] texts))
        (lower answer) /\
    (length_score = 1.0%float \/ length_score = 0.5%float) /\
    (length_score = 1.0%float <->
     10 <= word_count answer /\ word_count answer <= 200) /\
    Evaluation.overall_score report =
      (relevance * 0.5 + coverage * 0.2 + usage * 0.2
       + length_score * 0.1)%float /\
    (Evaluation.recommendation report = lit "Good" <->
     (0.7 <=? Evaluation.overall_score report)%float = true).
Proof.
  intros Hrel.
  unfold Evaluation.comprehensive_evaluation, Evaluation.evaluate_retrieval.
  rewrite Hrel.
  eexists. split; [reflexivity|].
  cbn [Evaluation.retrieval_evaluation Evaluation.answer_evaluation
       Evaluation.relevance_score Evaluation.coverage
       Evaluation.overall_score Evaluation.recommendation].
  split; [reflexivity|]. split; [reflexivity|]. split; [reflexivity|].
  rewrite length_score_binary.
  split; [|split; [|split]].
  - destruct ((10 <=? word_count answer) && (word_count answer <=? 200));
      [left|right]; reflexivity.
  - destruct ((10 <=? word_count answer) && (word_count answer <=? 200))
      eqn:E.
    + apply andb_true_iff in E. destruct E as [E1 E2].
      apply Nat.leb_le in E1. apply Nat.leb_le in E2.
      split; [intros _; split; assumption | reflexivity].
    + split.
      * intros H. exfalso. exact (half_is_not_one H).
      * intros [H1 H2]. apply Nat.leb_le in H1. apply Nat.leb_le in H2.
        rewrite H1, H2 in E. discriminate E.
  - reflexivity.
  - match goal with
    | |- context [PrimFloat.leb 0.7%float ?x] =>
        destruct (PrimFloat.leb 0.7%float x)
    end.
    + split; reflexivity.
    + split; intros H; [|discriminate H].
      apply (f_equal (@length ascii)) in H. discriminate H.
Qed.

End EvaluationFacts.

Lemma comprehensive_evaluation_score_witness :
  exists report : Evaluation.Report,
    @Evaluation.comprehensive_evaluation Double.externals
      Samples.cat_question Samples.cat_texts Samples.cat_answer = inr report /\
    let relevance :=
      Evaluation.relevance_score (Evaluation.retrieval_evaluation report) in
    let coverage :=
      Evaluation.coverage (Evaluation.retrieval_evaluation report) in
    let usage :=
      Evaluation.context_usage (Evaluation.answer_evaluation report) in
    let length_score :=
      Evaluation.length_score (Evaluation.answer_evaluation report) in
    relevance = 0.75%float /\
    coverage =
      Evaluation.keyword_ratio (Evaluation.keywords 3 Samples.cat_question)
        (lower (join (lit " ") Samples.cat_texts)) /\
    usage =
      Evaluation.keyword_ratio
        (Evaluation.keywords 4 (join [Config.nl; Config.nl] Samples.cat_texts))
        (lower Samples.cat_answer) /\
    (length_score = 1.0%float \/ length_score = 0.5%float) /\
    (length_score = 1.0%float <->
     10 <= word_count Samples.cat_answer
     /\ word_count Samples.cat_answer <= 200) /\
    Evaluation.overall_score report =
      (relevance * 0.5 + coverage * 0.2 + usage * 0.2
       + length_score * 0.1)%float /\
    (Evaluation.recommendation report = lit "Good" <->
     (0.7 <=? Evaluation.overall_score report)%float = true).
Proof.
  apply (@comprehensive_evaluation_score Double.externals
           Samples.cat_question Samples.cat_texts Samples.cat_answer
           0.75%float).
  vm_compute. reflexivity.
Defined.

(** ** The /ask handler *)

Section HandlerFacts.

Context `{Ext : Externals}.
Variable config : Config.t.

(** On a question that is empty once stripped, the body raises the 400
    exception and the handler of the same [try] turns it into a 500. *)
Lemma ask_question_blank (vector_db_loaded : bool)
    (request : Main.QuestionRequest) (st : state) :
  strip (Main.question request) = [] ->
  Main.ask_question config vector_db_loaded request st =
  (inl (HTTPException 500
          (lit "Internal server error: "
           ++ str_of_exn
                (HTTPException 400 (lit "Question cannot be empty")))),
   st).
Proof.
  intros Hblank.
  unfold Main.ask_question, try_except, Main.ask_question_body.
  rewrite Hblank. reflexivity.
Qed.

(** C9. For the whitespace-only question ["   "], [ask_question] answers
    with status 500, not 400: the [HTTPException] with status 400 raised
    in the [try] block is caught by its [except Exception] clause. *)
Theorem ask_question_blank_is_500 (vector_db_loaded : bool) (st : state) :
  Main.ask_question config vector_db_loaded Samples.blank_request st =
  (inl (HTTPException 500
          (lit "Internal server error: "
           ++ str_of_exn
                (HTTPException 400 (lit "Question cannot be empty")))),
   st) /\
  Main.http_status
    (fst (Main.ask_question config vector_db_loaded
            Samples.blank_request st)) = 500.
Proof.
  assert (H := ask_question_blank vector_db_loaded Samples.blank_request st
                 eq_refl).
  rewrite H. split; reflexivity.
Qed.

End HandlerFacts.

(** ** Cleaning *)

(** C10. [clean_text] is not idempotent: it collapses whitespace before it
    removes the characters it does not keep, so ["a @ b"] is cleaned to
    ["a  b"], with two spaces, which a second pass cleans to ["a b"]; and
    [chunk_text] returns different chunks for a text and for its cleaned
    form. *)
Theorem clean_text_twice_differs :
  Preprocessing.clean_text (lit "a @ b") = lit "a  b" /\
  Preprocessing.clean_text (Preprocessing.clean_text (lit "a @ b"))
    = lit "a b" /\
  Preprocessing.chunk_text None 500 50 Samples.report_line =
    [lit "Revenue grew 12 in Q3  constant currency, driven by cloud services."] /\
  Preprocessing.chunk_text None 500 50
    (Preprocessing.clean_text Samples.report_line) =
    [lit "Revenue grew 12 in Q3 constant currency, driven by cloud services."].
Proof. repeat split; vm_compute; reflexivity. Qed.

(** ** Chunking *)

(** C3, as stated, fails: [chunk_text("A. B. C.", 2, 1)] with one token per
    letter returns no chunk at all, so the chunks carry 0 tokens and the
    input 3. *)
Lemma chunk_text_abc_drops_all :
  Preprocessing.chunk_text Preprocessing.letter_encoding 2 1 Samples.abc = []
  /\ Preprocessing.count_tokens Preprocessing.letter_encoding Samples.abc = 3
  /\ ~ (Preprocessing.count_tokens Preprocessing.letter_encoding Samples.abc
        <= total_tokens Preprocessing.letter_encoding
             (Preprocessing.chunk_text Preprocessing.letter_encoding 2 1
                Samples.abc)).
Proof.
  split; [vm_compute; reflexivity|]. split; [vm_compute; reflexivity|].
  vm_compute. intros H. inversion H.
Qed.

(** C3, amended. With one token per letter, ["A. B. C."] is assembled into
    the two chunks ["A. B."] and ["B. C."], which carry 4 tokens for the 3 of
    the input, so that no sentence is left out of the assembled chunks; each
    has 2 tokens, not more than 10, and the final filter discards both:
    [chunk_text] returns the empty list. *)
Theorem chunk_text_abc_assembled_then_filtered :
  Preprocessing.assemble Preprocessing.letter_encoding 2 1
    (Preprocessing.clean_text Samples.abc) = [lit "A. B."; lit "B. C."] /\
  Preprocessing.count_tokens Preprocessing.letter_encoding Samples.abc
    <= total_tokens Preprocessing.letter_encoding
         [lit "A. B."; lit "B. C."] /\
  Forall (fun chunk =>
            Preprocessing.count_tokens Preprocessing.letter_encoding chunk
            <= 10)
         [lit "A. B."; lit "B. C."] /\
  Preprocessing.chunk_text Preprocessing.letter_encoding 2 1 Samples.abc = [].
Proof.
  split; [vm_compute; reflexivity|].
  split; [vm_compute; repeat constructor|].
  split; [|vm_compute; reflexivity].
  repeat constructor; vm_compute; repeat constructor.
Qed.

(** ** Substrings and splitting *)

Lemma startswith_spec (p s : str) :
  startswith p s = true <-> exists b, s = p ++ b.
Proof.
  revert s. induction p as [|a p IH]; intros s; simpl.
  - split; [intros _; exists s; reflexivity | reflexivity].
  - destruct s as [|c s].
    + split; [discriminate | intros [b Hb]; discriminate Hb].
    + rewrite andb_true_iff, Ascii.eqb_eq, IH. split.
      * intros [-> [b ->]]. exists b. reflexivity.
      * intros [b Hb]. inversion Hb; subst. split; [reflexivity|].
        exists b. reflexivity.
Qed.

Lemma contains_spec (p s : str) : contains p s = true <-> occurs_in p s.
Proof.
  induction s as [|c s IH].
  - simpl. rewrite orb_false_r, startswith_spec. split.
    + intros [b Hb]. exists [], b. exact Hb.
    + intros [a [b Hab]]. destruct a; [|discriminate Hab].
      exists b. exact Hab.
  - cbn [contains]. rewrite orb_true_iff, startswith_spec, IH. split.
    + intros [[b Hb] | [a [b Hab]]].
      * exists [], b. exact Hb.
      * exists (c :: a), b. rewrite Hab. reflexivity.
    + intros [a [b Hab]]. destruct a as [|c' a].
      * left. exists b. exact Hab.
      * right. inversion Hab; subst. exists a, b. reflexivity.
Qed.

Lemma occurs_in_trans (p s t : str) :
  occurs_in p s -> occurs_in s t -> occurs_in p t.
Proof.
  intros [a [b ->]] [a' [b' ->]].
  exists (a' ++ a), (b ++ b'). repeat rewrite <- app_assoc. reflexivity.
Qed.

Lemma occurs_in_lower (s t : str) :
  occurs_in s t -> occurs_in (lower s) (lower t).
Proof.
  intros [a [b ->]]. exists (lower a), (lower b).
  unfold lower. repeat rewrite map_app. reflexivity.
Qed.

Lemma split_on_head (d : ascii) (s : str) :
  exists p ps b, split_on d s = p :: ps /\ s = p ++ b.
Proof.
  induction s as [|c s [p [ps [b [Hs Hb]]]]]; simpl.
  - exists [], [], []. split; reflexivity.
  - destruct (Ascii.eqb c d).
    + exists [], (split_on d s), (c :: s). split; reflexivity.
    + rewrite Hs. exists (c :: p), ps, b. simpl. rewrite <- Hb.
      split; reflexivity.
Qed.

Lemma split_on_occurs (d : ascii) (s piece : str) :
  In piece (split_on d s) -> occurs_in piece s.
Proof.
  revert piece. induction s as [|c s IH]; intros piece; simpl.
  - intros [<- | []]. exists [], []. reflexivity.
  - destruct (Ascii.eqb c d).
    + intros [<- | Hin].
      * exists [], (c :: s). reflexivity.
      * destruct (IH piece Hin) as [a [b ->]]. exists (c :: a), b.
        reflexivity.
    + destruct (split_on_head d s) as [p [ps [b [Hs Hb]]]].
      rewrite Hs in *. simpl. intros [<- | Hin].
      * exists [], b. simpl. rewrite <- Hb. reflexivity.
      * destruct (IH piece (or_intror Hin)) as [a [b' ->]].
        exists (c :: a), b'. reflexivity.
Qed.

(** ** The fallback answerer *)

Lemma matchesb_spec (question sentence : str) :
  matchesb question sentence = true <-> sentence_matches question sentence.
Proof.
  unfold matchesb, sentence_matches, is_keyword, QAPipeline.question_words.
  rewrite existsb_exists. split.
  - intros [word [Hin Hc]]. apply filter_In in Hin. destruct Hin as [Hin Hl].
    exists word. apply Nat.ltb_lt in Hl. apply contains_spec in Hc.
    repeat split; assumption.
  - intros [word [[Hin Hl] Hc]]. exists word. split.
    + apply filter_In. split; [exact Hin|]. apply Nat.ltb_lt. exact Hl.
    + apply contains_spec. exact Hc.
Qed.

(** The loop over the sentences selects the matching ones, in order. *)
Lemma fallback_loop (question_lower : str) (sentences acc : list str) :
  fold_left (QAPipeline.fallback_step question_lower) sentences acc =
  acc ++ map strip
           (filter (fun sentence =>
                      existsb (fun word => contains word (lower sentence))
                        (QAPipeline.question_words question_lower))
                   sentences).
Proof.
  revert acc. induction sentences as [|s l IH]; intros acc; simpl.
  - rewrite app_nil_r. reflexivity.
  - rewrite IH. unfold QAPipeline.fallback_step.
    destruct (existsb _ _); simpl.
    + rewrite <- app_assoc. reflexivity.
    + reflexivity.
Qed.

Lemma relevant_sentences_filter (context question : str) :
  QAPipeline.relevant_sentences context question =
  map strip (filter (matchesb question) (split_on "."%char context)).
Proof.
  unfold QAPipeline.relevant_sentences. rewrite fallback_loop. reflexivity.
Qed.

(** C5. The fallback answerer splits the context at ['.'] and selects, in
    order, the sentences in which a keyword of the question occurs (both
    lower-cased; a keyword is a token of the question longer than 3
    characters). If some sentence is selected, the answer is the first two
    selected sentences at most, stripped, joined by [". "] and closed by
    ["."]. If none is, and in particular if no keyword occurs in the
    lower-cased context, the answer is ["Based on the provided context: "],
    the first 200 characters of the context, then ["..."]. *)
Theorem fallback_response_spec (context question : str) :
  let selected := filter (matchesb question) (split_on "."%char context) in
  (forall sentence,
     In sentence selected <->
     In sentence (split_on "."%char context)
     /\ sentence_matches question sentence) /\
  (selected <> [] ->
   QAPipeline._fallback_response context question =
     join (lit ". ") (map strip (firstn 2 selected)) ++ lit "."
   /\ length (firstn 2 selected) <= 2) /\
  (selected = [] ->
   QAPipeline._fallback_response context question =
     lit "Based on the provided context: " ++ firstn 200 context
     ++ lit "...") /\
  ((forall word, is_keyword question word ->
      ~ occurs_in word (lower context)) ->
   selected = []).
Proof.
  intros selected. split; [|split; [|split]].
  - intros sentence. unfold selected. rewrite filter_In, matchesb_spec.
    reflexivity.
  - intros Hne. unfold QAPipeline._fallback_response.
    rewrite relevant_sentences_filter. fold selected.
    rewrite firstn_map.
    destruct selected as [|s l]; [contradiction|].
    split; [reflexivity | apply firstn_le_length].
  - intros Hnil. unfold QAPipeline._fallback_response.
    rewrite relevant_sentences_filter. fold selected. rewrite Hnil.
    reflexivity.
  - intros Hnone. unfold selected.
    destruct (filter (matchesb question) (split_on "."%char context))
      as [|s l] eqn:E; [reflexivity|].
    assert (Hin : In s (filter (matchesb question)
                          (split_on "."%char context))).
    { rewrite E. left. reflexivity. }
    apply filter_In in Hin. destruct Hin as [Hin Hm].
    apply matchesb_spec in Hm. destruct Hm as [word [Hk Hocc]].
    exfalso. apply (Hnone word Hk).
    apply (occurs_in_trans Hocc).
    apply occurs_in_lower. apply (split_on_occurs _ _ _ Hin).
Qed.

Lemma fallback_response_spec_witness :
  QAPipeline._fallback_response
    (lit "Cats purr. Dogs bark. Cats sleep. Cats eat") (lit "What CATS like")
  = lit "Cats purr. Cats sleep." /\
  QAPipeline._fallback_response
    (lit "Cats purr. Dogs bark.") (lit "What birds like")
  = lit "Based on the provided context: Cats purr. Dogs bark....".
Proof.
  split.
  - refine (proj1 (proj1 (proj2 (fallback_response_spec
              (lit "Cats purr. Dogs bark. Cats sleep. Cats eat")
              (lit "What CATS like"))) _)).
    vm_compute. discriminate.
  - refine (proj1 (proj2 (proj2 (fallback_response_spec
              (lit "Cats purr. Dogs bark.") (lit "What birds like")))) _).
    vm_compute. reflexivity.
Defined.

(** ** One chunk for a short text *)

Section ChunkerFacts.

Variable encoding : Preprocessing.Encoding.
Variables chunk_size chunk_overlap : nat.

Lemma total_tokens_snoc (acc : list str) (s : str) :
  total_tokens encoding (acc ++ [s]) =
  total_tokens encoding acc + Preprocessing.count_tokens encoding s.
Proof.
  unfold total_tokens. rewrite map_app, list_sum_app. simpl. lia.
Qed.

Lemma total_tokens_cons (s : str) (l : list str) :
  total_tokens encoding (s :: l) =
  Preprocessing.count_tokens encoding s + total_tokens encoding l.
Proof. reflexivity. Qed.

(** As long as the budget is not exceeded, the sentence loop only appends
    to the chunk under construction. *)
Lemma sentence_loop_accumulates (sentences acc : list str) :
  total_tokens encoding acc
  + total_tokens encoding (filter nonempty (map strip sentences))
    <= chunk_size ->
  fold_left (Preprocessing.sentence_step encoding chunk_size chunk_overlap)
    sentences ([], acc, total_tokens encoding acc) =
  ([], acc ++ filter nonempty (map strip sentences),
   total_tokens encoding (acc ++ filter nonempty (map strip sentences))).
Proof.
  revert acc. induction sentences as [|s l IH]; intros acc Hsum.
  - simpl. rewrite app_nil_r. reflexivity.
  - cbn [fold_left map filter] in *.
    unfold Preprocessing.sentence_step at 2.
    destruct (strip s) as [|c s'] eqn:Es.
    + cbn [nonempty negb] in *. exact (IH acc Hsum).
    + cbn [nonempty negb] in *.
      rewrite total_tokens_cons in Hsum.
      assert (H1 : (chunk_size <? Preprocessing.count_tokens encoding (c :: s'))
                   = false) by (apply Nat.ltb_ge; lia).
      assert (H2 : (chunk_size <? total_tokens encoding acc
                      + Preprocessing.count_tokens encoding (c :: s'))
                   = false) by (apply Nat.ltb_ge; lia).
      rewrite H1, H2. cbn [andb].
      rewrite <- total_tokens_snoc.
      rewrite IH by (rewrite total_tokens_snoc; lia).
      rewrite <- app_assoc. reflexivity.
Qed.

Lemma assemble_single (text : str) :
  total_tokens encoding (filter nonempty (map strip (split_sentences text)))
    <= chunk_size ->
  Preprocessing.assemble encoding chunk_size chunk_overlap text =
  let sentences := filter nonempty (map strip (split_sentences text)) in
  if nonempty sentences then [join (lit " ") sentences] else [].
Proof.
  intros Hsum. unfold Preprocessing.assemble.
  change 0 with (total_tokens encoding []).
  rewrite sentence_loop_accumulates by exact Hsum.
  reflexivity.
Qed.

Lemma chunk_text_big_enough (text chunk : str) :
  In chunk (Preprocessing.chunk_text encoding chunk_size chunk_overlap text) ->
  10 < Preprocessing.count_tokens encoding chunk.
Proof.
  unfold Preprocessing.chunk_text.
  destruct (negb (nonempty (Preprocessing.clean_text text))); [intros []|].
  intros Hin. apply filter_In in Hin. destruct Hin as [_ Hbig].
  apply Nat.ltb_lt. exact Hbig.
Qed.

End ChunkerFacts.

(** *** The length/4 token count is superadditive over the sentences *)

Lemma length_dropwhile {A : Type} (p : A -> bool) (l : list A) :
  length (dropwhile p l) <= length l.
Proof.
  induction l as [|x l IH]; simpl; [lia|].
  destruct (p x); simpl; lia.
Qed.

Lemma length_strip (s : str) : length (strip s) <= length s.
Proof.
  unfold strip, rstrip, lstrip. rewrite length_rev.
  etransitivity; [apply length_dropwhile|]. rewrite length_rev.
  apply length_dropwhile.
Qed.

Lemma total_length_cons_head (c : ascii) (ps : list str) :
  total_length (cons_head c ps) = S (total_length ps).
Proof. destruct ps; reflexivity. Qed.

Lemma total_length_split_sentences (a b : bool) (s : str) :
  total_length (split_sentences_from a b s) <= length s.
Proof.
  revert a b. induction s as [|c s IH]; intros a b; simpl; [apply Nat.le_refl|].
  destruct (isspace c).
  - destruct b; [specialize (IH false true); lia|].
    destruct a.
    + specialize (IH false true). unfold total_length in *. simpl. lia.
    + rewrite total_length_cons_head. specialize (IH false false). lia.
  - rewrite total_length_cons_head. specialize (IH (is_sentence_end c) false).
    lia.
Qed.

Lemma total_length_strip_filter (ps : list str) :
  total_length (filter nonempty (map strip ps)) <= total_length ps.
Proof.
  induction ps as [|p ps IH]; simpl; [apply Nat.le_refl|].
  unfold total_length in *. pose proof (length_strip p) as Hp.
  destruct (nonempty (strip p)); simpl; lia.
Qed.

Lemma quarter_tokens_le (ps : list str) :
  total_tokens None ps <= total_length ps / 4.
Proof.
  unfold total_tokens, total_length.
  induction ps as [|p ps IH]; [reflexivity|].
  cbn [map].
  change (list_sum (?x :: ?l)) with (x + list_sum l).
  unfold Preprocessing.count_tokens at 1.
  apply Nat.div_le_lower_bound; [discriminate|].
  pose proof (Nat.Div0.mul_div_le (length p) 4) as Hp.
  pose proof (Nat.Div0.mul_div_le
                (list_sum (map (@length ascii) ps)) 4) as Hps.
  lia.
Qed.

Lemma fallback_tokens_of_sentences (text : str) :
  total_tokens None (sentences_of text)
  <= Preprocessing.count_tokens None (Preprocessing.clean_text text).
Proof.
  etransitivity; [apply quarter_tokens_le|].
  unfold Preprocessing.count_tokens.
  apply Nat.Div0.div_le_mono.
  etransitivity; [apply total_length_strip_filter|].
  apply total_length_split_sentences.
Qed.

(** *** The sentences of a single-spaced text, joined, are the text *)

Lemma dropwhile_starts_nonspace (s : str) :
  starts_nonspace s = true -> dropwhile isspace s = s.
Proof.
  destruct s as [|c s]; simpl; [discriminate|].
  intros H. apply negb_true_iff in H. rewrite H. reflexivity.
Qed.

Lemma strip_tight (p : str) : tight p = true -> strip p = p.
Proof.
  unfold tight, strip, rstrip, lstrip. intros H.
  apply andb_true_iff in H. destruct H as [H1 H2].
  rewrite (dropwhile_starts_nonspace _ H1).
  rewrite (dropwhile_starts_nonspace _ H2).
  apply rev_involutive.
Qed.

Lemma tight_nonempty (p : str) : tight p = true -> nonempty p = true.
Proof. destruct p; [discriminate | reflexivity]. Qed.

Lemma strip_all_tight (ps : list str) :
  Forall (fun q => tight q = true) ps ->
  filter nonempty (map strip ps) = ps.
Proof.
  induction 1 as [|p ps Hp _ IH]; [reflexivity|].
  simpl. rewrite (strip_tight _ Hp), (tight_nonempty _ Hp), IH. reflexivity.
Qed.

Lemma join_concat (sep p : str) (rest : list str) :
  join sep (p :: rest) = p ++ concat (map (fun q => sep ++ q) rest).
Proof.
  revert p. induction rest as [|q rest IH]; intros p.
  - simpl. rewrite app_nil_r. reflexivity.
  - change (join sep (p :: q :: rest)) with (p ++ sep ++ join sep (q :: rest)).
    rewrite IH. simpl. rewrite <- app_assoc. reflexivity.
Qed.

Lemma join_snoc (sep : str) (l : list str) (x : str) :
  l <> [] -> join sep (l ++ [x]) = join sep l ++ sep ++ x.
Proof.
  induction l as [|y l IH]; intros Hne; [contradiction|].
  destruct l as [|z l]; [reflexivity|].
  change (join sep ((y :: z :: l) ++ [x]))
    with (y ++ sep ++ join sep ((z :: l) ++ [x])).
  rewrite IH by discriminate.
  change (join sep (y :: z :: l)) with (y ++ sep ++ join sep (z :: l)).
  repeat rewrite <- app_assoc. reflexivity.
Qed.

Lemma starts_nonspace_app (l m : str) :
  l <> [] -> starts_nonspace (l ++ m) = starts_nonspace l.
Proof. destruct l; [contradiction | reflexivity]. Qed.

Lemma ends_nonspace_cons (c : ascii) (p : str) :
  isspace c = false \/ p <> [] ->
  p = [] \/ starts_nonspace (rev p) = true ->
  starts_nonspace (rev (c :: p)) = true.
Proof.
  intros Hc Hp. simpl. destruct p as [|d p].
  - simpl. destruct Hc as [Hc | Hc]; [rewrite Hc; reflexivity | contradiction].
  - destruct Hp as [Hp | Hp]; [discriminate Hp|].
    rewrite starts_nonspace_app; [exact Hp|].
    simpl. intros E. apply app_eq_nil in E. destruct E as [_ E]. discriminate E.
Qed.

Lemma split_sentences_flags (a b a' b' : bool) (s : str) :
  starts_nonspace s = true ->
  split_sentences_from a b s = split_sentences_from a' b' s.
Proof.
  destruct s as [|c s]; simpl; [discriminate|].
  intros H. apply negb_true_iff in H. rewrite H. reflexivity.
Qed.

Lemma split_sentences_spaced (s : str) :
  spaced s = true ->
  forall a : bool,
  exists (p : str) (rest : list str),
    split_sentences_from a false s = p :: rest /\
    s = p ++ concat (map (fun q => lit " " ++ q) rest) /\
    Forall (fun q => tight q = true) rest /\
    (p = [] \/ starts_nonspace (rev p) = true) /\
    (starts_nonspace s = true -> starts_nonspace p = true).
Proof.
  induction s as [|c r IH]; intros Hs a.
  - exists [], []. repeat split; auto. 
  - cbn [spaced] in Hs. apply andb_true_iff in Hs. destruct Hs as [Hc Hr].
    cbn [split_sentences_from]. destruct (isspace c) eqn:Ec.
    + apply andb_true_iff in Hc. destruct Hc as [Hsp Hnext].
      apply Ascii.eqb_eq in Hsp. subst c.
      destruct (IH Hr false) as [p [rest [Hsplit [Hcat [Htight [Hend Hstart]]]]]].
      specialize (Hstart Hnext).
      assert (Hpne : p <> []) by (intros ->; discriminate Hstart).
      assert (Hpend : starts_nonspace (rev p) = true)
        by (destruct Hend as [Hend | Hend]; [contradiction | exact Hend]).
      destruct a.
      * rewrite (split_sentences_flags false true false false r Hnext), Hsplit.
        exists [], (p :: rest). repeat split.
        -- rewrite Hcat at 1. reflexivity.
        -- constructor; [|exact Htight]. unfold tight.
           rewrite Hstart, Hpend. reflexivity.
        -- left. reflexivity.
        -- cbn [starts_nonspace]. rewrite Ec. discriminate.
      * rewrite Hsplit. exists (" "%char :: p), rest. repeat split.
        -- rewrite Hcat at 1. reflexivity.
        -- exact Htight.
        -- right. apply ends_nonspace_cons; [right; exact Hpne | right; exact Hpend].
        -- cbn [starts_nonspace]. rewrite Ec. discriminate.
    + destruct (IH Hr (is_sentence_end c))
        as [p [rest [Hsplit [Hcat [Htight [Hend _]]]]]].
      rewrite Hsplit. exists (c :: p), rest. repeat split.
      * rewrite Hcat at 1. reflexivity.
      * exact Htight.
      * right. apply ends_nonspace_cons; [left; exact Ec | exact Hend].
      * intros _. cbn [starts_nonspace]. rewrite Ec. reflexivity.
Qed.

Lemma join_sentences_single_spaced (s : str) :
  single_spaced s = true ->
  join (lit " ") (filter nonempty (map strip (split_sentences s))) = s.
Proof.
  unfold single_spaced. intros H. apply andb_true_iff in H.
  destruct H as [Hs Hstart]. apply orb_true_iff in Hstart.
  destruct Hstart as [Hstart | Hempty].
  - destruct (split_sentences_spaced s Hs false)
      as [p [rest [Hsplit [Hcat [Htight [Hend Hp]]]]]].
    specialize (Hp Hstart).
    assert (Hpend : starts_nonspace (rev p) = true).
    { destruct Hend as [-> | Hend]; [discriminate Hp | exact Hend]. }
    unfold split_sentences. rewrite Hsplit.
    rewrite strip_all_tight.
    + rewrite join_concat. symmetry. exact Hcat.
    + constructor; [|exact Htight]. unfold tight. rewrite Hp, Hpend.
      reflexivity.
  - destruct s; [reflexivity | discriminate Hempty].
Qed.

(** *** A text that cleaning leaves unchanged is single-spaced *)

Lemma In_dropwhile {A : Type} (p : A -> bool) (x : A) (l : list A) :
  In x (dropwhile p l) -> In x l.
Proof.
  induction l as [|y l IH]; simpl; [tauto|].
  destruct (p y); simpl; tauto.
Qed.

Lemma In_strip (c : ascii) (s : str) : In c (strip s) -> In c s.
Proof.
  unfold strip, rstrip, lstrip. intros H.
  apply in_rev in H. apply In_dropwhile in H. apply in_rev in H.
  apply In_dropwhile in H. exact H.
Qed.

Lemma In_sub_ws_runs (b : bool) (c : ascii) (s : str) :
  In c (sub_ws_runs b s) -> c = " "%char \/ In c s.
Proof.
  revert b. induction s as [|d s IH]; intros b; simpl; [tauto|].
  destruct (isspace d).
  - destruct b; simpl; intros H.
    + destruct (IH _ H); tauto.
    + destruct H as [H | H]; [left; symmetry; exact H|].
      destruct (IH _ H); tauto.
  - simpl. intros [H | H]; [tauto|]. destruct (IH _ H); tauto.
Qed.

Lemma filter_all {A : Type} (f : A -> bool) (l : list A) :
  (forall x, In x l -> f x = true) -> filter f l = l.
Proof.
  induction l as [|x l IH]; intros H; simpl; [reflexivity|].
  rewrite (H x (or_introl eq_refl)), IH; [reflexivity|].
  intros y Hy. apply H. right. exact Hy.
Qed.

Lemma clean_text_kept (text : str) (c : ascii) :
  In c (Preprocessing.clean_text text) -> Preprocessing.kept_char c = true.
Proof.
  unfold Preprocessing.clean_text. intros H. apply In_strip in H.
  apply filter_In in H. exact (proj2 H).
Qed.

Lemma clean_text_of_kept (t : str) :
  (forall c, In c t -> Preprocessing.kept_char c = true) ->
  Preprocessing.clean_text t = strip (sub_ws_runs false t).
Proof.
  intros Hkept. unfold Preprocessing.clean_text. rewrite filter_all; [reflexivity|].
  intros c Hc. apply In_sub_ws_runs in Hc. destruct Hc as [-> | Hc].
  - reflexivity.
  - exact (Hkept c Hc).
Qed.

Lemma loose_sub_ws_runs (s : str) (b : bool) :
  loose (sub_ws_runs b s) = true /\
  (b = true -> starts_space (sub_ws_runs b s) = false).
Proof.
  revert b. induction s as [|c s IH]; intros b; simpl.
  - split; reflexivity.
  - destruct (isspace c) eqn:Ec.
    + destruct b.
      * exact (IH true).
      * destruct (IH true) as [Hl Hs]. split; [|discriminate].
        cbn [loose]. change (isspace " "%char) with true. cbv iota.
        rewrite (Hs eq_refl), Hl. reflexivity.
    + destruct (IH false) as [Hl _]. split.
      * cbn [loose]. rewrite Ec, Hl. reflexivity.
      * intros _. simpl. exact Ec.
Qed.

Lemma loose_dropwhile (s : str) :
  loose s = true ->
  loose (dropwhile isspace s) = true /\
  starts_space (dropwhile isspace s) = false.
Proof.
  induction s as [|c s IH]; intros H.
  - split; reflexivity.
  - cbn [dropwhile]. destruct (isspace c) eqn:Ec.
    + apply IH. cbn [loose] in H. apply andb_true_iff in H. exact (proj2 H).
    + split; [exact H | exact Ec].
Qed.

Lemma dropwhile_snoc {A : Type} (p : A -> bool) (l : list A) (x : A) :
  dropwhile p (l ++ [x]) =
  match dropwhile p l with
  | [] => if p x then [] else [x]
  | y :: d => (y :: d) ++ [x]
  end.
Proof.
  induction l as [|y l IH]; simpl; [reflexivity|].
  destruct (p y); [exact IH | reflexivity].
Qed.

Lemma rstrip_cons (c : ascii) (r : str) :
  rstrip (c :: r) =
  if nonempty (rstrip r) || negb (isspace c) then c :: rstrip r else [].
Proof.
  unfold rstrip. cbn [rev]. rewrite dropwhile_snoc.
  destruct (dropwhile isspace (rev r)) as [|y d] eqn:E.
  - simpl. destruct (isspace c); reflexivity.
  - rewrite rev_app_distr.
    assert (Hne : nonempty (rev (y :: d)) = true).
    { destruct (rev (y :: d)) eqn:Er; [|reflexivity].
      apply (f_equal (@length ascii)) in Er. rewrite length_rev in Er.
      discriminate Er. }
    rewrite Hne. reflexivity.
Qed.

Lemma rstrip_head (s : str) :
  nonempty (rstrip s) = true ->
  exists c r, s = c :: r /\ rstrip s = c :: rstrip r.
Proof.
  destruct s as [|c r]; [discriminate|].
  rewrite rstrip_cons.
  destruct (nonempty (rstrip r) || negb (isspace c)); [|discriminate].
  intros _. exists c, r. split; reflexivity.
Qed.

Lemma spaced_rstrip (s : str) : loose s = true -> spaced (rstrip s) = true.
Proof.
  induction s as [|c r IH]; intros H; [reflexivity|].
  cbn [loose] in H. apply andb_true_iff in H. destruct H as [Hc Hr].
  rewrite rstrip_cons.
  destruct (nonempty (rstrip r) || negb (isspace c)) eqn:Ekeep; [|reflexivity].
  cbn [spaced]. rewrite (IH Hr), andb_true_r.
  destruct (isspace c) eqn:Ec; [|reflexivity].
  apply andb_true_iff in Hc. destruct Hc as [Hsp Hnext].
  rewrite Hsp. cbn [andb].
  rewrite orb_false_r in Ekeep.
  destruct (rstrip_head r Ekeep) as [d [r' [-> ->]]].
  simpl in Hnext. simpl. exact Hnext.
Qed.

Lemma single_spaced_strip (s : str) :
  loose s = true -> single_spaced (strip s) = true.
Proof.
  intros H. unfold strip, lstrip. destruct (loose_dropwhile s H) as [Hl Hs].
  unfold single_spaced. rewrite (spaced_rstrip _ Hl). cbn [andb].
  destruct (nonempty (rstrip (dropwhile isspace s))) eqn:En.
  - destruct (rstrip_head _ En) as [d [r' [Hd ->]]].
    rewrite Hd in Hs. simpl in Hs. simpl. rewrite Hs. reflexivity.
  - rewrite orb_true_r. reflexivity.
Qed.

Lemma clean_fixed_point_single_spaced (t : str) :
  Preprocessing.clean_text t = t -> single_spaced t = true.
Proof.
  intros Hfix.
  assert (Hkept : forall c, In c t -> Preprocessing.kept_char c = true).
  { intros c Hc. rewrite <- Hfix in Hc. exact (clean_text_kept _ _ Hc). }
  rewrite (clean_text_of_kept _ Hkept) in Hfix. rewrite <- Hfix.
  apply single_spaced_strip. exact (proj1 (loose_sub_ws_runs t false)).
Qed.

(** *** Where cleaning twice is cleaning once *)

Lemma spaced_sub_ws_runs (s : str) :
  spaced s = true ->
  forall b : bool,
    (b = true -> starts_space s = false) -> sub_ws_runs b s = s.
Proof.
  induction s as [|c r IH]; intros Hs b Hb; [reflexivity|].
  cbn [spaced] in Hs. apply andb_true_iff in Hs. destruct Hs as [Hc Hr].
  cbn [sub_ws_runs]. destruct (isspace c) eqn:Ec.
  - apply andb_true_iff in Hc. destruct Hc as [Hsp Hnext].
    apply Ascii.eqb_eq in Hsp.
    destruct b.
    + specialize (Hb eq_refl). simpl in Hb. congruence.
    + rewrite (IH Hr true); [rewrite Hsp; reflexivity|].
      intros _. destruct r as [|d r]; [discriminate Hnext|].
      simpl in *. apply negb_true_iff. exact Hnext.
  - rewrite (IH Hr false); [reflexivity | discriminate].
Qed.

Lemma spaced_ends_nonspace (s : str) :
  spaced s = true -> s <> [] -> starts_nonspace (rev s) = true.
Proof.
  induction s as [|c r IH]; intros Hs Hne; [contradiction|].
  cbn [spaced] in Hs. apply andb_true_iff in Hs. destruct Hs as [Hc Hr].
  apply ends_nonspace_cons.
  - destruct (isspace c); [|left; reflexivity].
    right. apply andb_true_iff in Hc. destruct Hc as [_ Hnext].
    intros ->. discriminate Hnext.
  - destruct r as [|d r]; [left; reflexivity|].
    right. apply IH; [exact Hr | discriminate].
Qed.

Lemma single_spaced_strip_id (s : str) :
  single_spaced s = true -> strip s = s.
Proof.
  unfold single_spaced. intros H. apply andb_true_iff in H.
  destruct H as [Hs Hstart].
  destruct s as [|c r]; [reflexivity|].
  apply strip_tight. unfold tight.
  rewrite orb_false_r in Hstart. rewrite Hstart.
  apply spaced_ends_nonspace; [exact Hs | discriminate].
Qed.

(** Cleaning leaves a text unchanged exactly when the text is single-spaced
    and holds only characters that cleaning keeps. *)
Lemma clean_text_fixed_point_iff (t : str) :
  Preprocessing.clean_text t = t <->
  single_spaced t = true
  /\ (forall c, In c t -> Preprocessing.kept_char c = true).
Proof.
  split.
  - intros Hfix. split; [exact (@clean_fixed_point_single_spaced t Hfix)|].
    intros c Hc. rewrite <- Hfix in Hc. exact (clean_text_kept _ _ Hc).
  - intros [Hs Hkept]. rewrite (clean_text_of_kept _ Hkept).
    assert (Hsp : spaced t = true).
    { unfold single_spaced in Hs. apply andb_true_iff in Hs. exact (proj1 Hs). }
    rewrite (@spaced_sub_ws_runs t Hsp false) by discriminate.
    apply single_spaced_strip_id. exact Hs.
Qed.

(** On a text from which cleaning removes no character, cleaning twice is
    cleaning once. *)
Lemma clean_text_idempotent_on_kept (text : str) :
  (forall c, In c text -> Preprocessing.kept_char c = true) ->
  Preprocessing.clean_text (Preprocessing.clean_text text)
  = Preprocessing.clean_text text.
Proof.
  intros Hkept. apply clean_text_fixed_point_iff. split.
  - rewrite (clean_text_of_kept _ Hkept). apply single_spaced_strip.
    exact (proj1 (loose_sub_ws_runs text false)).
  - intros c Hc. exact (clean_text_kept _ _ Hc).
Qed.

Lemma chunk_text_one_chunk (encoding : Preprocessing.Encoding)
    (chunk_size chunk_overlap : nat) (text : str) :
  total_tokens encoding (sentences_of text) <= chunk_size ->
  Preprocessing.chunk_text encoding chunk_size chunk_overlap text =
  if nonempty (sentences_of text)
     && (10 <? Preprocessing.count_tokens encoding
                 (join (lit " ") (sentences_of text)))
  then [join (lit " ") (sentences_of text)] else [].
Proof.
  intros Hsum. unfold Preprocessing.chunk_text.
  rewrite (@assemble_single encoding chunk_size chunk_overlap
             (Preprocessing.clean_text text) Hsum).
  cbv zeta.
  destruct (nonempty (Preprocessing.clean_text text)) eqn:En; cbn [negb].
  - change (filter (Preprocessing.big_enough encoding)
              (if nonempty (sentences_of text)
               then [join (lit " ") (sentences_of text)] else []) =
            if nonempty (sentences_of text)
               && (10 <? Preprocessing.count_tokens encoding
                           (join (lit " ") (sentences_of text)))
            then [join (lit " ") (sentences_of text)] else []).
    destruct (nonempty (sentences_of text)); reflexivity.
  - assert (H : sentences_of text = []).
    { unfold sentences_of.
      destruct (Preprocessing.clean_text text); [reflexivity | discriminate En]. }
    rewrite H. reflexivity.
Qed.

(** C2, as stated, fails: the form line has 11 tokens at 4 characters a
    token, more than 10 and fewer than the 500 of the budget, and
    [chunk_text] returns no chunk for it, because the token counts that
    matter are those of the cleaned text, here 6. *)
Lemma chunk_text_form_line_dropped :
  Preprocessing.count_tokens None Samples.form_line < 500 /\
  10 < Preprocessing.count_tokens None Samples.form_line /\
  Preprocessing.chunk_text None 500 50 Samples.form_line = [] /\
  length (Preprocessing.chunk_text None 500 50 Samples.form_line) <> 1.
Proof.
  split; [vm_compute; repeat constructor|].
  split; [vm_compute; repeat constructor|].
  split; [vm_compute; reflexivity|].
  vm_compute. discriminate.
Qed.

(** C2, amended. Token counts are taken on the cleaned text. If the token
    counts of its sentences sum to at most [chunk_size], [chunk_text]
    returns exactly one chunk, the sentences joined by single spaces, when
    that chunk has more than 10 tokens, and no chunk otherwise. With the
    length/4 token count the sentences never count more tokens than the
    cleaned text, and when cleaning the cleaned text again changes nothing
    the joined sentences are the cleaned text: then a cleaned text of at
    most [chunk_size] tokens yields itself as the one chunk when it has
    more than 10 tokens, and no chunk otherwise. No chunk of 10 tokens or
    fewer is ever returned. *)
Theorem chunk_text_short_text (encoding : Preprocessing.Encoding)
    (chunk_size chunk_overlap : nat) (text : str) :
  let cleaned := Preprocessing.clean_text text in
  let sentences := sentences_of text in
  let chunk := join (lit " ") sentences in
  (total_tokens encoding sentences <= chunk_size ->
   Preprocessing.chunk_text encoding chunk_size chunk_overlap text =
     if nonempty sentences && (10 <? Preprocessing.count_tokens encoding chunk)
     then [chunk] else []) /\
  total_tokens None sentences <= Preprocessing.count_tokens None cleaned /\
  (Preprocessing.clean_text cleaned = cleaned -> chunk = cleaned) /\
  (Preprocessing.clean_text cleaned = cleaned ->
   Preprocessing.count_tokens None cleaned <= chunk_size ->
   Preprocessing.chunk_text None chunk_size chunk_overlap text =
     if 10 <? Preprocessing.count_tokens None cleaned then [cleaned] else []) /\
  (forall c,
     In c (Preprocessing.chunk_text encoding chunk_size chunk_overlap text) ->
     10 < Preprocessing.count_tokens encoding c).
Proof.
  intros cleaned sentences chunk.
  assert (Hone := fun enc =>
            @chunk_text_one_chunk enc chunk_size chunk_overlap text).
  fold sentences in Hone. fold chunk in Hone.
  assert (Hjoin : Preprocessing.clean_text cleaned = cleaned -> chunk = cleaned).
  { intros Hfix. unfold chunk, sentences, sentences_of. fold cleaned.
    apply join_sentences_single_spaced.
    apply clean_fixed_point_single_spaced. exact Hfix. }
  split; [exact (Hone encoding)|].
  split; [exact (fallback_tokens_of_sentences text)|].
  split; [exact Hjoin|].
  split; [|intros c; apply chunk_text_big_enough].
  intros Hfix Hsize. rewrite Hone.
  - rewrite (Hjoin Hfix).
    destruct sentences as [|s l] eqn:Es; [|reflexivity].
    assert (Hc : cleaned = []) by (rewrite <- (Hjoin Hfix); reflexivity).
    rewrite Hc. reflexivity.
  - etransitivity; [exact (fallback_tokens_of_sentences text) | exact Hsize].
Qed.

Lemma chunk_text_short_text_witness :
  Preprocessing.chunk_text None 500 50 Samples.two_sentences
    = [Samples.two_sentences] /\
  Preprocessing.chunk_text Preprocessing.letter_encoding 500 50
    Samples.two_sentences
    = [Samples.two_sentences].
Proof.
  split.
  - refine (proj1 (proj2 (proj2 (proj2
              (chunk_text_short_text None 500 50 Samples.two_sentences))))
              _ _).
    + vm_compute. reflexivity.
    + vm_compute. repeat constructor.
  - refine (proj1 (chunk_text_short_text Preprocessing.letter_encoding
                     500 50 Samples.two_sentences) _).
    vm_compute. repeat constructor.
Defined.

(** ** Overlap between consecutive chunks *)

(** When the sentence loop emits a chunk, the next chunk is seeded with the
    last [chunk_overlap] pieces of the emitted one (sentences, or what an
    earlier emission seeded), and not with a number of tokens. *)
Lemma sentence_step_emits (encoding : Preprocessing.Encoding)
    (chunk_size chunk_overlap : nat) (chunks current_chunk : list str)
    (current_size : nat) (sentence : str) :
  nonempty (strip sentence) = true ->
  Preprocessing.count_tokens encoding (strip sentence) <= chunk_size ->
  chunk_size
    < current_size + Preprocessing.count_tokens encoding (strip sentence) ->
  nonempty current_chunk = true ->
  Preprocessing.sentence_step encoding chunk_size chunk_overlap
    (chunks, current_chunk, current_size) sentence =
  let overlap_text :=
    join (lit " ") (Preprocessing.overlap_of chunk_overlap current_chunk) in
  let seeded :=
    if nonempty overlap_text then [overlap_text; strip sentence]
    else [strip sentence] in
  (chunks ++ [join (lit " ") current_chunk], seeded,
   Preprocessing.count_tokens encoding (join (lit " ") seeded)).
Proof.
  intros Hne Hfit Hover Hcur.
  unfold Preprocessing.sentence_step. rewrite Hne. cbn [negb].
  apply Nat.ltb_ge in Hfit. rewrite Hfit.
  apply Nat.ltb_lt in Hover. rewrite Hover, Hcur. reflexivity.
Qed.

(** The pieces carried over are all the pieces of the emitted chunk when
    it has at most [chunk_overlap] of them, and also when [chunk_overlap]
    is 0, since [l[-0:]] is [l]. *)
Lemma overlap_of_whole (chunk_overlap : nat) (pieces : list str) :
  length pieces <= chunk_overlap \/ chunk_overlap = 0 ->
  Preprocessing.overlap_of chunk_overlap pieces = pieces.
Proof.
  unfold Preprocessing.overlap_of, last_slice. intros [H | ->].
  - apply Nat.ltb_ge in H. rewrite H. reflexivity.
  - destruct (0 <? length pieces); reflexivity.
Qed.

(** C4. With the default sizes (500 tokens a chunk, 50 of overlap) and the
    length/4 token count, thirty sentences of 20 tokens are chunked into
    six chunks of 25, 26, ..., 30 sentences: each chunk after the first
    starts with the whole of the previous chunk, so that consecutive chunks
    share 506 tokens and more where 50 were asked for, and every chunk
    exceeds the 500 tokens of the budget. *)
Theorem chunk_text_carries_whole_chunk :
  Preprocessing.chunk_text None 500 50 (Samples.sentences 30) =
    map Samples.sentences [25; 26; 27; 28; 29; 30] /\
  map (Preprocessing.count_tokens None)
    (map Samples.sentences [25; 26; 27; 28; 29; 30]) =
    [506; 526; 546; 566; 587; 607] /\
  (forall n,
     Samples.sentences (S (S n)) =
     Samples.sentences (S n) ++ lit " " ++ Samples.sentence).
Proof.
  split; [vm_compute; reflexivity|].
  split; [vm_compute; reflexivity|].
  intros n. unfold Samples.sentences.
  change (repeat Samples.sentence (S (S n)))
    with (Samples.sentence :: repeat Samples.sentence (S n)).
  rewrite repeat_cons. apply join_snoc. discriminate.
Qed.

(** * Further properties *)

(** ** The shape of a cleaned text *)

Lemma In_sub_ws_runs_space (b : bool) (c : ascii) (s : str) :
  In c (sub_ws_runs b s) -> isspace c = true -> c = " "%char.
Proof.
  revert b. induction s as [|d s IH]; intros b; simpl; [tauto|].
  destruct (isspace d) eqn:Ed.
  - destruct b; simpl.
    + apply IH.
    + intros [<- | H] Hc; [reflexivity | exact (IH _ H Hc)].
  - simpl. intros [<- | H] Hc; [congruence | exact (IH _ H Hc)].
Qed.

Lemma length_sub_ws_runs (b : bool) (s : str) :
  length (sub_ws_runs b s) <= length s.
Proof.
  revert b. induction s as [|d s IH]; intros b; simpl; [lia|].
  destruct (isspace d); [destruct b|]; simpl;
    match goal with |- context [sub_ws_runs ?x s] => specialize (IH x) end;
    lia.
Qed.

Lemma dropwhile_head {A : Type} (p : A -> bool) (l : list A) :
  dropwhile p l = [] \/
  exists x r, dropwhile p l = x :: r /\ p x = false.
Proof.
  induction l as [|y l IH]; simpl; [left; reflexivity|].
  destruct (p y) eqn:E; [exact IH|].
  right. exists y, l. split; [reflexivity | exact E].
Qed.

(** [strip] leaves the empty string or a string that neither starts nor
    ends with whitespace. *)
Lemma strip_empty_or_tight (s : str) : strip s = [] \/ tight (strip s) = true.
Proof.
  unfold strip, lstrip.
  destruct (nonempty (rstrip (dropwhile isspace s))) eqn:En.
  - right. destruct (rstrip_head _ En) as [c [r [Hl Hr]]].
    unfold tight. apply andb_true_iff. split.
    + rewrite Hr. simpl. apply negb_true_iff.
      destruct (dropwhile_head isspace s) as [H | [x [r' [H Hx]]]];
        rewrite H in Hl; [discriminate Hl|].
      inversion Hl; subst. exact Hx.
    + unfold rstrip in *. rewrite rev_involutive.
      destruct (dropwhile_head isspace (rev (dropwhile isspace s)))
        as [H | [x [r' [H Hx]]]]; rewrite H in *.
      * discriminate En.
      * simpl. rewrite Hx. reflexivity.
  - left. destruct (rstrip (dropwhile isspace s)); [reflexivity|discriminate].
Qed.

Lemma dropwhile_all {A : Type} (p : A -> bool) (l : list A) :
  (forall x, In x l -> p x = true) -> dropwhile p l = [].
Proof.
  induction l as [|y l IH]; intros H; simpl; [reflexivity|].
  rewrite (H y (or_introl eq_refl)). apply IH.
  intros x Hx. apply H. right. exact Hx.
Qed.

Lemma strip_all_space (s : str) :
  (forall c, In c s -> isspace c = true) -> strip s = [].
Proof.
  intros H. unfold strip, lstrip, rstrip.
  rewrite (dropwhile_all isspace s H). reflexivity.
Qed.

Lemma clean_text_chars (text : str) (c : ascii) :
  In c (Preprocessing.clean_text text) ->
  Preprocessing.kept_char c = true /\ (isspace c = true -> c = " "%char).
Proof.
  intros Hc. split; [exact (clean_text_kept _ _ Hc)|].
  unfold Preprocessing.clean_text in Hc. apply In_strip in Hc.
  apply filter_In in Hc. destruct Hc as [Hc _].
  exact (In_sub_ws_runs_space _ _ _ Hc).
Qed.

(** X1. A cleaned text holds only characters that cleaning keeps, its only
    whitespace characters are plain spaces (tabs and line breaks are gone),
    it is empty or starts and ends with a character that is not whitespace,
    and it is never longer than the text it comes from. *)
Theorem clean_text_normal_form (text : str) :
  (forall c, In c (Preprocessing.clean_text text) ->
     Preprocessing.kept_char c = true /\
     (isspace c = true -> c = " "%char)) /\
  (Preprocessing.clean_text text = []
   \/ tight (Preprocessing.clean_text text) = true) /\
  length (Preprocessing.clean_text text) <= length text.
Proof.
  split; [|split].
  - intros c Hc. exact (clean_text_chars text c Hc).
  - apply strip_empty_or_tight.
  - unfold Preprocessing.clean_text.
    etransitivity; [apply length_strip|].
    etransitivity; [apply filter_length_le|].
    apply length_sub_ws_runs.
Qed.

(** X2. Cleaning a text twice gives the same as cleaning it once exactly
    when the cleaned text is single-spaced; this is the case for every text
    from which cleaning removes no character. *)
Theorem clean_text_twice_iff (text : str) :
  (Preprocessing.clean_text (Preprocessing.clean_text text)
     = Preprocessing.clean_text text
   <-> single_spaced (Preprocessing.clean_text text) = true) /\
  ((forall c, In c text -> Preprocessing.kept_char c = true) ->
   Preprocessing.clean_text (Preprocessing.clean_text text)
     = Preprocessing.clean_text text).
Proof.
  split; [|apply clean_text_idempotent_on_kept].
  rewrite clean_text_fixed_point_iff. split; [tauto|].
  intros H. split; [exact H|].
  intros c Hc. exact (clean_text_kept _ _ Hc).
Qed.

Lemma clean_text_twice_iff_witness :
  Preprocessing.clean_text
    (Preprocessing.clean_text (lit "  Hello,   world! (twice)  "))
  = Preprocessing.clean_text (lit "  Hello,   world! (twice)  ").
Proof.
  apply (proj2 (clean_text_twice_iff (lit "  Hello,   world! (twice)  "))).
  apply (proj1 (forallb_forall _ _)). vm_compute. reflexivity.
Defined.

Lemma clean_text_blank (text : str) :
  (forall c, In c text ->
     isspace c = true \/ Preprocessing.kept_char c = false) ->
  Preprocessing.clean_text text = [].
Proof.
  intros H. unfold Preprocessing.clean_text. apply strip_all_space.
  intros c Hc. apply filter_In in Hc. destruct Hc as [Hc Hk].
  destruct (isspace c) eqn:Ec; [reflexivity|].
  apply In_sub_ws_runs in Hc. destruct Hc as [-> | Hc]; [discriminate Ec|].
  destruct (H c Hc) as [Hs | Hn]; congruence.
Qed.

(** X3. A text made only of whitespace and of characters that cleaning
    removes, the empty text among them, gives no chunk, whatever the
    tokenizer and the sizes. *)
Theorem chunk_text_blank (encoding : Preprocessing.Encoding)
    (chunk_size chunk_overlap : nat) (text : str) :
  (forall c, In c text ->
     isspace c = true \/ Preprocessing.kept_char c = false) ->
  Preprocessing.chunk_text encoding chunk_size chunk_overlap text = [].
Proof.
  intros H. unfold Preprocessing.chunk_text.
  rewrite (clean_text_blank text H). reflexivity.
Qed.

Lemma chunk_text_blank_witness :
  Preprocessing.chunk_text None 500 50 (lit "  ***  ###  @@@  ") = [].
Proof.
  apply chunk_text_blank.
  intros c Hc.
  assert (Hall : forallb (fun c => isspace c
                                   || negb (Preprocessing.kept_char c))
                   (lit "  ***  ###  @@@  ") = true)
    by (vm_compute; reflexivity).
  rewrite forallb_forall in Hall. specialize (Hall c Hc).
  apply orb_true_iff in Hall. destruct Hall as [Hs | Hn];
    [left; exact Hs | right; apply negb_true_iff; exact Hn].
Defined.

(** ** Nothing is lost before the final filter *)

Lemma occurs_in_refl (p : str) : occurs_in p p.
Proof. exists [], []. simpl. rewrite app_nil_r. reflexivity. Qed.

Lemma occurs_in_cons (c : ascii) (p s : str) :
  occurs_in p s -> occurs_in p (c :: s).
Proof. intros [a [b ->]]. exists (c :: a), b. reflexivity. Qed.

Lemma occurs_in_chars (p s : str) (c : ascii) :
  occurs_in p s -> In c p -> In c s.
Proof.
  intros [a [b ->]] Hc. apply in_or_app. right. apply in_or_app. left.
  exact Hc.
Qed.

Lemma occurs_in_join (sep : str) (l : list str) (p : str) :
  In p l -> occurs_in p (join sep l).
Proof.
  induction l as [|x l IH]; intros Hin; [destruct Hin|].
  destruct l as [|y l].
  - destruct Hin as [<- | []]. apply occurs_in_refl.
  - change (join sep (x :: y :: l)) with (x ++ sep ++ join sep (y :: l)).
    destruct Hin as [<- | Hin].
    + exists [], (sep ++ join sep (y :: l)). reflexivity.
    + destruct (IH Hin) as [a [b Hab]]. rewrite Hab.
      exists (x ++ sep ++ a), b. repeat rewrite <- app_assoc. reflexivity.
Qed.

Lemma split_ws_head (s : str) :
  starts_nonspace s = true ->
  exists p ps b, split_ws s = p :: ps /\ s = p ++ b.
Proof.
  induction s as [|c r IH]; [discriminate|].
  intros Hc. simpl in Hc. apply negb_true_iff in Hc.
  cbn [split_ws]. rewrite Hc.
  destruct (starts_nonspace r) eqn:Er.
  - destruct (IH eq_refl) as [p [ps [b [Hs Hb]]]]. rewrite Hs.
    exists (c :: p), ps, b. simpl. rewrite <- Hb. split; reflexivity.
  - exists [c], (split_ws r), r. split; reflexivity.
Qed.

Lemma split_ws_occurs (s w : str) : In w (split_ws s) -> occurs_in w s.
Proof.
  revert w. induction s as [|c r IH]; intros w; [intros []|].
  cbn [split_ws]. destruct (isspace c).
  - intros H. apply occurs_in_cons. exact (IH w H).
  - destruct (starts_nonspace r) eqn:Er.
    + destruct (split_ws_head r Er) as [p [ps [b [Hs Hb]]]].
      rewrite Hs in *. simpl. intros [<- | H].
      * exists [], b. simpl. rewrite <- Hb. reflexivity.
      * apply occurs_in_cons. apply IH. right. exact H.
    + intros [<- | H].
      * exists [], r. reflexivity.
      * apply occurs_in_cons. exact (IH w H).
Qed.

Section Coverage.

Variable encoding : Preprocessing.Encoding.
Variables chunk_size chunk_overlap : nat.

Local Abbreviation word_step :=
  (Preprocessing.word_step encoding chunk_size chunk_overlap).
Local Abbreviation sentence_step :=
  (Preprocessing.sentence_step encoding chunk_size chunk_overlap).

Lemma held_sub (st : Preprocessing.loop_state) (p q : str) :
  occurs_in q p -> held st p -> held st q.
Proof.
  destruct st as [[chunks current] n]. simpl.
  intros Hq [[chunk [Hin Hp]] | [piece [Hin Hp]]].
  - left. exists chunk. split; [exact Hin | exact (occurs_in_trans Hq Hp)].
  - right. exists piece. split; [exact Hin | exact (occurs_in_trans Hq Hp)].
Qed.

Lemma held_emit (chunks current current' : list str) (n n' : nat) (p : str) :
  held (chunks, current, n) p ->
  held (chunks ++ [join (lit " ") current], current', n') p.
Proof.
  simpl. intros [[chunk [Hin Hp]] | [piece [Hin Hp]]]; left.
  - exists chunk. split; [apply in_or_app; left; exact Hin | exact Hp].
  - exists (join (lit " ") current). split.
    + apply in_or_app. right. left. reflexivity.
    + exact (occurs_in_trans Hp (occurs_in_join _ _ _ Hin)).
Qed.

Lemma held_append (chunks current : list str) (n n' : nat) (x p : str) :
  held (chunks, current, n) p -> held (chunks, current ++ [x], n') p.
Proof.
  simpl. intros [H | [piece [Hin Hp]]]; [left; exact H|].
  right. exists piece. split; [apply in_or_app; left; exact Hin | exact Hp].
Qed.

Lemma held_piece (chunks current : list str) (n : nat) (x : str) :
  In x current -> held (chunks, current, n) x.
Proof.
  intros Hin. right. exists x. split; [exact Hin | apply occurs_in_refl].
Qed.

Lemma held_size (chunks current : list str) (n n' : nat) (p : str) :
  held (chunks, current, n) p -> held (chunks, current, n') p.
Proof. exact (fun H => H). Qed.

Lemma word_step_held (st : Preprocessing.loop_state) (w : str) :
  (forall p, held st p -> held (word_step st w) p)
  /\ held (word_step st w) w.
Proof.
  destruct st as [[chunks temp] n].
  unfold Preprocessing.word_step.
  destruct ((chunk_size <? n + Preprocessing.count_tokens encoding w)
            && nonempty temp).
  - split.
    + intros p Hp. exact (held_emit _ _ Hp).
    + apply held_piece. apply in_or_app. right. left. reflexivity.
  - split.
    + intros p Hp. exact (held_append _ _ Hp).
    + apply held_piece. apply in_or_app. right. left. reflexivity.
Qed.

Lemma word_loop_held (words : list str) (st : Preprocessing.loop_state) :
  (forall p, held st p -> held (fold_left word_step words st) p)
  /\ (forall w, In w words -> held (fold_left word_step words st) w).
Proof.
  revert st. induction words as [|x l IH]; intros st.
  - split; [intros p Hp; exact Hp | intros w []].
  - cbn [fold_left]. destruct (IH (word_step st x)) as [Hkeep Hnew].
    destruct (word_step_held st x) as [Hk Hx]. split.
    + intros p Hp. exact (Hkeep _ (Hk _ Hp)).
    + intros w [<- | Hw]; [exact (Hkeep _ Hx) | exact (Hnew _ Hw)].
Qed.

Lemma sentence_step_held (st : Preprocessing.loop_state) (raw : str) :
  (forall p, held st p -> held (sentence_step st raw) p)
  /\ (nonempty (strip raw) = true ->
      (Preprocessing.count_tokens encoding (strip raw) <= chunk_size ->
       held (sentence_step st raw) (strip raw))
      /\ (forall w, In w (split_ws (strip raw)) ->
            held (sentence_step st raw) w)).
Proof.
  destruct st as [[chunks current] n].
  unfold Preprocessing.sentence_step.
  destruct (nonempty (strip raw)) eqn:Ene; cbn [negb];
    [|split; [intros p Hp; exact Hp | discriminate]].
  destruct (chunk_size <? Preprocessing.count_tokens encoding (strip raw))
    eqn:Ebig.
  - (* the sentence alone exceeds the budget: it is split into words *)
    set (start := if nonempty current
                  then (chunks ++ [join (lit " ") current], [], 0)
                  else (chunks, current, n)).
    assert (Hstart : exists chunks1 n1,
               start = (chunks1, [], n1)
               /\ forall p, held (chunks, current, n) p ->
                            held (chunks1, [], 0) p).
    { unfold start. destruct current as [|c0 cs].
      - exists chunks, n. split; [reflexivity | intros p Hp; exact Hp].
      - exists (chunks ++ [join (lit " ") (c0 :: cs)]), 0.
        split; [reflexivity | intros p Hp; exact (held_emit _ _ Hp)]. }
    destruct Hstart as [chunks1 [n1 [-> Hfrom]]].
    destruct (word_loop_held (split_ws (strip raw)) (chunks1, [], 0))
      as [Hkeep Hwords].
    destruct (fold_left word_step (split_ws (strip raw)) (chunks1, [], 0))
      as [[chunks2 temp] n2].
    assert (Hfinal : forall p, held (chunks2, temp, n2) p ->
              held (if nonempty temp then (chunks2, temp, n2)
                    else (chunks2, [], n1)) p).
    { intros p Hp. destruct temp; [|exact Hp].
      destruct Hp as [H | [piece [[] _]]]. left. exact H. }
    split.
    + intros p Hp. exact (Hfinal _ (Hkeep _ (Hfrom _ Hp))).
    + intros _. split.
      * intros Hfit. apply Nat.ltb_lt in Ebig. lia.
      * intros w Hw. exact (Hfinal _ (Hwords _ Hw)).
  - destruct ((chunk_size <? n + Preprocessing.count_tokens encoding (strip raw))
              && nonempty current).
    + assert (Hs : held
                (chunks ++ [join (lit " ") current],
                 if nonempty
                      (join (lit " ")
                         (Preprocessing.overlap_of chunk_overlap current))
                 then [join (lit " ")
                         (Preprocessing.overlap_of chunk_overlap current);
                       strip raw]
                 else [strip raw],
                 Preprocessing.count_tokens encoding
                   (join (lit " ")
                      (if nonempty
                            (join (lit " ")
                               (Preprocessing.overlap_of chunk_overlap current))
                       then [join (lit " ")
                               (Preprocessing.overlap_of chunk_overlap current);
                             strip raw]
                       else [strip raw]))) (strip raw)).
      { apply held_piece.
        destruct (nonempty (join (lit " ")
                              (Preprocessing.overlap_of chunk_overlap current)));
          simpl; tauto. }
      split.
      * intros p Hp. exact (held_emit _ _ Hp).
      * intros _. split; [intros _; exact Hs|].
        intros w Hw. exact (@held_sub _ _ _ (@split_ws_occurs _ _ Hw) Hs).
    + assert (Hs : held (chunks, current ++ [strip raw],
                         n + Preprocessing.count_tokens encoding (strip raw))
                     (strip raw)).
      { apply held_piece. apply in_or_app. right. left. reflexivity. }
      split.
      * intros p Hp. exact (held_append _ _ Hp).
      * intros _. split; [intros _; exact Hs|].
        intros w Hw. exact (@held_sub _ _ _ (@split_ws_occurs _ _ Hw) Hs).
Qed.

Lemma sentence_loop_held (raws : list str) (st : Preprocessing.loop_state) :
  (forall p, held st p -> held (fold_left sentence_step raws st) p)
  /\ (forall raw, In raw raws -> nonempty (strip raw) = true ->
      (Preprocessing.count_tokens encoding (strip raw) <= chunk_size ->
       held (fold_left sentence_step raws st) (strip raw))
      /\ (forall w, In w (split_ws (strip raw)) ->
            held (fold_left sentence_step raws st) w)).
Proof.
  revert st. induction raws as [|x l IH]; intros st.
  - split; [intros p Hp; exact Hp | intros raw []].
  - cbn [fold_left]. destruct (IH (sentence_step st x)) as [Hkeep Hnew].
    destruct (sentence_step_held st x) as [Hk Hx]. split.
    + intros p Hp. exact (Hkeep _ (Hk _ Hp)).
    + intros raw [<- | Hraw] Hne; [|exact (Hnew _ Hraw Hne)].
      destruct (Hx Hne) as [Hfit Hwords]. split.
      * intros H. exact (Hkeep _ (Hfit H)).
      * intros w Hw. exact (Hkeep _ (Hwords _ Hw)).
Qed.

Lemma held_assembled (text : str) (p : str) :
  held (fold_left sentence_step (split_sentences text) ([], [], 0)) p ->
  exists chunk,
    In chunk (Preprocessing.assemble encoding chunk_size chunk_overlap text)
    /\ occurs_in p chunk.
Proof.
  unfold Preprocessing.assemble.
  destruct (fold_left sentence_step (split_sentences text) ([], [], 0))
    as [[chunks current] n].
  intros [[chunk [Hin Hp]] | [piece [Hin Hp]]].
  - exists chunk. split; [|exact Hp].
    destruct (nonempty current); [apply in_or_app; left|]; exact Hin.
  - destruct current as [|c0 cs]; [destruct Hin|].
    exists (join (lit " ") (c0 :: cs)). split.
    + apply in_or_app. right. left. reflexivity.
    + exact (occurs_in_trans Hp (occurs_in_join _ _ _ Hin)).
Qed.

End Coverage.

Lemma assembled_returned_or_small (encoding : Preprocessing.Encoding)
    (chunk_size chunk_overlap : nat) (text chunk : str) :
  Preprocessing.clean_text text <> [] ->
  In chunk (Preprocessing.assemble encoding chunk_size chunk_overlap
              (Preprocessing.clean_text text)) ->
  In chunk (Preprocessing.chunk_text encoding chunk_size chunk_overlap text)
  \/ Preprocessing.count_tokens encoding chunk <= 10.
Proof.
  intros Hne Hin. unfold Preprocessing.chunk_text.
  destruct (Preprocessing.clean_text text) as [|c0 cs] eqn:Ec;
    [contradiction|]. cbn [nonempty negb].
  destruct (Preprocessing.big_enough encoding chunk) eqn:Eb.
  - left. apply filter_In. split; assumption.
  - right. unfold Preprocessing.big_enough in Eb. apply Nat.ltb_ge in Eb.
    exact Eb.
Qed.

(** X4. Chunking loses text only through the final filter: every sentence
    of the cleaned text that fits the chunk size occurs whole in a chunk
    that is returned or that has 10 tokens or fewer, and so does every
    word of every sentence, over-long sentences included. *)
Theorem chunk_text_keeps_sentences (encoding : Preprocessing.Encoding)
    (chunk_size chunk_overlap : nat) (text sentence : str) :
  In sentence (sentences_of text) ->
  (Preprocessing.count_tokens encoding sentence <= chunk_size ->
   exists chunk,
     occurs_in sentence chunk /\
     (In chunk (Preprocessing.chunk_text encoding chunk_size chunk_overlap text)
      \/ In chunk (Preprocessing.assemble encoding chunk_size chunk_overlap
                     (Preprocessing.clean_text text))
         /\ Preprocessing.count_tokens encoding chunk <= 10)) /\
  (forall word, In word (split_ws sentence) ->
   exists chunk,
     occurs_in word chunk /\
     (In chunk (Preprocessing.chunk_text encoding chunk_size chunk_overlap text)
      \/ In chunk (Preprocessing.assemble encoding chunk_size chunk_overlap
                     (Preprocessing.clean_text text))
         /\ Preprocessing.count_tokens encoding chunk <= 10)).
Proof.
  intros Hs. unfold sentences_of in Hs. apply filter_In in Hs.
  destruct Hs as [Hs Hne]. apply in_map_iff in Hs.
  destruct Hs as [raw [<- Hraw]].
  assert (Hclean : Preprocessing.clean_text text <> []).
  { intros E. rewrite E in Hraw. destruct Hraw as [<- | []].
    discriminate Hne. }
  destruct (sentence_loop_held encoding chunk_size chunk_overlap
              (split_sentences (Preprocessing.clean_text text)) ([], [], 0))
    as [_ Hall].
  destruct (Hall raw Hraw Hne) as [Hfit Hwords].
  assert (Hout : forall p,
            held (fold_left
                    (Preprocessing.sentence_step encoding chunk_size
                       chunk_overlap)
                    (split_sentences (Preprocessing.clean_text text))
                    ([], [], 0)) p ->
            exists chunk,
              occurs_in p chunk /\
              (In chunk (Preprocessing.chunk_text encoding chunk_size
                           chunk_overlap text)
               \/ In chunk (Preprocessing.assemble encoding chunk_size
                              chunk_overlap (Preprocessing.clean_text text))
                  /\ Preprocessing.count_tokens encoding chunk <= 10)).
  { intros p Hp. destruct (held_assembled _ _ _ _ _ Hp) as [chunk [Hin Hocc]].
    exists chunk. split; [exact Hocc|].
    destruct (assembled_returned_or_small encoding chunk_size chunk_overlap
                text chunk Hclean Hin) as [H | H];
      [left; exact H | right; split; assumption]. }
  split.
  - intros H. exact (Hout _ (Hfit H)).
  - intros w Hw. exact (Hout _ (Hwords _ Hw)).
Qed.

Lemma chunk_text_keeps_sentences_witness :
  exists chunk,
    occurs_in (lit "Overlap adds context.") chunk /\
    (In chunk (Preprocessing.chunk_text None 500 50 Samples.two_sentences)
     \/ In chunk (Preprocessing.assemble None 500 50
                    (Preprocessing.clean_text Samples.two_sentences))
        /\ Preprocessing.count_tokens None chunk <= 10).
Proof.
  apply (proj1 (chunk_text_keeps_sentences None 500 50 Samples.two_sentences
                  (lit "Overlap adds context.")
                  (or_intror (or_introl eq_refl)))).
  vm_compute. repeat constructor.
Defined.

(** ** The characters of a chunk *)

Lemma made_of_sub (src p q : str) :
  (forall c, In c q -> In c p) -> made_of src p -> made_of src q.
Proof. intros Hsub Hp c Hc. exact (Hp c (Hsub c Hc)). Qed.

Lemma made_of_join (src : str) (l : list str) :
  Forall (made_of src) l -> made_of src (join (lit " ") l).
Proof.
  induction l as [|x l IH]; intros H; [intros c []|].
  inversion H as [|? ? Hx Hl]; subst.
  destruct l as [|y l]; [exact Hx|].
  change (join (lit " ") (x :: y :: l))
    with (x ++ lit " " ++ join (lit " ") (y :: l)).
  intros c Hc. apply in_app_or in Hc. destruct Hc as [Hc | Hc];
    [exact (Hx c Hc)|].
  apply in_app_or in Hc. destruct Hc as [[<- | []] | Hc];
    [left; reflexivity | exact (IH Hl c Hc)].
Qed.

Lemma In_skipn {A : Type} (n : nat) (l : list A) (x : A) :
  In x (skipn n l) -> In x l.
Proof.
  intros H. rewrite <- (firstn_skipn n l). apply in_or_app. right. exact H.
Qed.

Lemma Forall_overlap_of (P : str -> Prop) (k : nat) (l : list str) :
  Forall P l -> Forall P (Preprocessing.overlap_of k l).
Proof.
  intros H. unfold Preprocessing.overlap_of, last_slice.
  destruct (k <? length l); [|exact H].
  destruct (k =? 0); [exact H|].
  apply Forall_forall. intros x Hx. apply In_skipn in Hx.
  exact (proj1 (Forall_forall P l) H x Hx).
Qed.

Lemma In_cons_head (c : ascii) (ps : list str) (p : str) (x : ascii) :
  In p (cons_head c ps) -> In x p ->
  x = c \/ exists q, In q ps /\ In x q.
Proof.
  destruct ps as [|q ps]; simpl.
  - intros [<- | []] [<- | []]. left. reflexivity.
  - intros [<- | Hp] Hx.
    + destruct Hx as [<- | Hx]; [left; reflexivity|].
      right. exists q. split; [left; reflexivity | exact Hx].
    + right. exists p. split; [right; exact Hp | exact Hx].
Qed.

Lemma In_split_sentences (a b : bool) (s p : str) (x : ascii) :
  In p (split_sentences_from a b s) -> In x p -> In x s.
Proof.
  revert a b p. induction s as [|c s IH]; intros a b p; simpl.
  - intros [<- | []] [].
  - destruct (isspace c).
    + destruct b; [intros Hp Hx; right; exact (IH _ _ _ Hp Hx)|].
      destruct a.
      * intros [<- | Hp] Hx; [destruct Hx | right; exact (IH _ _ _ Hp Hx)].
      * intros Hp Hx.
        destruct (In_cons_head _ _ _ _ Hp Hx) as [-> | [q [Hq Hxq]]];
          [left; reflexivity | right; exact (IH _ _ _ Hq Hxq)].
    + intros Hp Hx.
      destruct (In_cons_head _ _ _ _ Hp Hx) as [-> | [q [Hq Hxq]]];
        [left; reflexivity | right; exact (IH _ _ _ Hq Hxq)].
Qed.

Section Characters.

Variable encoding : Preprocessing.Encoding.
Variables chunk_size chunk_overlap : nat.
Variable src : str.

Lemma word_step_made_of (st : Preprocessing.loop_state) (w : str) :
  made_of src w -> all_made_of src st ->
  all_made_of src
    (Preprocessing.word_step encoding chunk_size chunk_overlap st w).
Proof.
  destruct st as [[chunks temp] n]. intros Hw [Hc Ht].
  unfold Preprocessing.word_step.
  destruct ((chunk_size <? n + Preprocessing.count_tokens encoding w)
            && nonempty temp); split.
  - apply Forall_app. split; [exact Hc|].
    constructor; [exact (made_of_join Ht) | constructor].
  - apply Forall_app. split; [exact (Forall_overlap_of _ Ht)|].
    constructor; [exact Hw | constructor].
  - exact Hc.
  - apply Forall_app. split; [exact Ht|]. constructor; [exact Hw | constructor].
Qed.

Lemma word_loop_made_of (words : list str) (st : Preprocessing.loop_state) :
  Forall (made_of src) words -> all_made_of src st ->
  all_made_of src
    (fold_left (Preprocessing.word_step encoding chunk_size chunk_overlap)
       words st).
Proof.
  revert st. induction words as [|w l IH]; intros st Hw Hst; [exact Hst|].
  inversion Hw; subst. cbn [fold_left]. apply IH; [assumption|].
  apply word_step_made_of; assumption.
Qed.

Lemma sentence_step_made_of (st : Preprocessing.loop_state) (raw : str) :
  made_of src raw -> all_made_of src st ->
  all_made_of src
    (Preprocessing.sentence_step encoding chunk_size chunk_overlap st raw).
Proof.
  destruct st as [[chunks current] n]. intros Hraw [Hc Hcur].
  assert (Hs : made_of src (strip raw))
    by (apply (made_of_sub (p := raw)); [intros c0 Hc0; apply In_strip; exact Hc0 | exact Hraw]).
  unfold Preprocessing.sentence_step.
  destruct (nonempty (strip raw)); cbn [negb]; [|split; assumption].
  destruct (chunk_size <? Preprocessing.count_tokens encoding (strip raw)).
  - assert (Hstart : exists chunks1 cur1 n1,
               (if nonempty current
                then (chunks ++ [join (lit " ") current], [], 0)
                else (chunks, current, n)) = (chunks1, cur1, n1)
               /\ Forall (made_of src) chunks1
               /\ Forall (made_of src) cur1).
    { destruct (nonempty current).
      - exists (chunks ++ [join (lit " ") current]), [], 0.
        split; [reflexivity|]. split; [|constructor].
        apply Forall_app. split; [exact Hc|].
        constructor; [exact (made_of_join Hcur) | constructor].
      - exists chunks, current, n. repeat split; assumption. }
    destruct Hstart as [chunks1 [cur1 [n1 [-> [Hc1 Hcur1]]]]].
    assert (Hwords : Forall (made_of src) (split_ws (strip raw))).
    { apply Forall_forall. intros w Hw.
      apply (made_of_sub (p := strip raw)); [|exact Hs].
      intros c. exact (@occurs_in_chars _ _ c (@split_ws_occurs _ _ Hw)). }
    pose proof (@word_loop_made_of (split_ws (strip raw)) (chunks1, [], 0)
                  Hwords (conj Hc1 (Forall_nil _))) as Hloop.
    cbv beta iota zeta.
    destruct (fold_left
                (Preprocessing.word_step encoding chunk_size chunk_overlap)
                (split_ws (strip raw)) (chunks1, [], 0))
      as [[chunks2 temp] n2].
    destruct Hloop as [Hc2 Ht].
    destruct (nonempty temp); split; assumption.
  - destruct ((chunk_size <? n + Preprocessing.count_tokens encoding (strip raw))
              && nonempty current); split.
    + apply Forall_app. split; [exact Hc|].
      constructor; [exact (made_of_join Hcur) | constructor].
    + destruct (nonempty (join (lit " ")
                            (Preprocessing.overlap_of chunk_overlap current))).
      * constructor; [|constructor; [exact Hs | constructor]].
        exact (made_of_join (Forall_overlap_of _ Hcur)).
      * constructor; [exact Hs | constructor].
    + exact Hc.
    + apply Forall_app. split; [exact Hcur|].
      constructor; [exact Hs | constructor].
Qed.

Lemma sentence_loop_made_of (raws : list str)
    (st : Preprocessing.loop_state) :
  Forall (made_of src) raws -> all_made_of src st ->
  all_made_of src
    (fold_left (Preprocessing.sentence_step encoding chunk_size chunk_overlap)
       raws st).
Proof.
  revert st. induction raws as [|w l IH]; intros st Hw Hst; [exact Hst|].
  inversion Hw; subst. cbn [fold_left]. apply IH; [assumption|].
  apply sentence_step_made_of; assumption.
Qed.

End Characters.

Lemma assemble_made_of (encoding : Preprocessing.Encoding)
    (chunk_size chunk_overlap : nat) (text : str) :
  Forall (made_of text)
    (Preprocessing.assemble encoding chunk_size chunk_overlap text).
Proof.
  unfold Preprocessing.assemble.
  assert (Hraws : Forall (made_of text) (split_sentences text)).
  { apply Forall_forall. intros p Hp c Hc. right.
    exact (In_split_sentences _ _ _ _ _ Hp Hc). }
  pose proof (@sentence_loop_made_of encoding chunk_size chunk_overlap text
                (split_sentences text) ([], [], 0) Hraws
                (conj (Forall_nil _) (Forall_nil _))) as H.
  destruct (fold_left
              (Preprocessing.sentence_step encoding chunk_size chunk_overlap)
              (split_sentences text) ([], [], 0))
    as [[chunks current] n].
  destruct H as [Hc Hcur].
  destruct (nonempty current); [|exact Hc].
  apply Forall_app. split; [exact Hc|].
  constructor; [exact (made_of_join Hcur) | constructor].
Qed.

(** X5. Every character of every chunk that [chunk_text] returns is a
    character that cleaning keeps, and its whitespace characters are plain
    spaces: no special character, tab or line break reaches a chunk. *)
Theorem chunk_text_characters (encoding : Preprocessing.Encoding)
    (chunk_size chunk_overlap : nat) (text chunk : str) (c : ascii) :
  In chunk (Preprocessing.chunk_text encoding chunk_size chunk_overlap text) ->
  In c chunk ->
  Preprocessing.kept_char c = true /\ (isspace c = true -> c = " "%char).
Proof.
  unfold Preprocessing.chunk_text.
  destruct (negb (nonempty (Preprocessing.clean_text text))); [intros []|].
  intros Hin Hc. apply filter_In in Hin. destruct Hin as [Hin _].
  pose proof (assemble_made_of encoding chunk_size chunk_overlap
                (Preprocessing.clean_text text)) as Hall.
  rewrite Forall_forall in Hall.
  destruct (Hall chunk Hin c Hc) as [-> | Hsrc].
  - split; reflexivity.
  - exact (clean_text_chars text c Hsrc).
Qed.

Lemma chunk_text_characters_witness :
  Preprocessing.kept_char "R"%char = true
  /\ (isspace "R"%char = true -> "R"%char = " "%char).
Proof.
  apply (chunk_text_characters None 500 50 Samples.report_line
           (lit "Revenue grew 12 in Q3  constant currency, driven by cloud services.")).
  - vm_compute. left. reflexivity.
  - vm_compute. left. reflexivity.
Defined.

(** ** Batches of texts to embed *)

Lemma batches_fuel_concat (fuel n : nat) (l : list str) :
  0 < n -> length l <= fuel ->
  concat (Embeddings.batches_fuel fuel n l) = l.
Proof.
  intros Hn. revert l. induction fuel as [|fuel IH]; intros l Hl.
  - destruct l; [reflexivity | simpl in Hl; lia].
  - destruct l as [|x l]; [reflexivity|].
    cbn [Embeddings.batches_fuel concat].
    rewrite IH; [apply firstn_skipn|].
    rewrite length_skipn. cbn [length] in *. lia.
Qed.


Section EmbeddingFacts.

Context `{Ext : Externals}.

Lemma encode_all_each (f : str -> vector) (bs : list (list str)) :
  encodes_each_text f ->
  Embeddings.encode_all bs = inr (map f (concat bs)).
Proof.
  intros Hf. induction bs as [|b bs IH]; [reflexivity|].
  cbn [Embeddings.encode_all concat]. rewrite Hf, IH, map_app. reflexivity.
Qed.


(** X6. Batching is transparent: with a model that encodes each text on
    its own, [create_embeddings] returns the embedding of every text, in
    the order of the texts, together with the texts unchanged, whatever
    their number. *)
Theorem create_embeddings_each_text (f : str -> vector) (texts : list str) :
  encodes_each_text f ->
  Embeddings.create_embeddings texts = inr (map f texts, texts).
Proof.
  intros Hf. unfold Embeddings.create_embeddings.
  destruct texts as [|t ts]; [reflexivity|]. cbn [nonempty negb].
  rewrite (encode_all_each _ Hf). unfold Embeddings.batches.
  rewrite batches_fuel_concat; [reflexivity | lia | apply Nat.le_refl].
Qed.


End EmbeddingFacts.

Lemma double_encodes_each_text :
  @encodes_each_text Double.externals
    (fun _ => [0.75%float; 0.5%float]).
Proof. intros batch. reflexivity. Qed.

Lemma create_embeddings_each_text_witness :
  @Embeddings.create_embeddings Double.externals Samples.cat_texts =
  inr (map (fun _ => [0.75%float; 0.5%float]) Samples.cat_texts,
       Samples.cat_texts).
Proof.
  exact (@create_embeddings_each_text Double.externals _ Samples.cat_texts
           double_encodes_each_text).
Defined.


(** ** Summaries *)

Lemma length_join (sep : str) (l : list str) :
  length (join sep l) = total_length l + length sep * (length l - 1).
Proof.
  unfold total_length. induction l as [|x l IH]; [simpl; lia|].
  destruct l as [|y l].
  - simpl. lia.
  - change (join sep (x :: y :: l)) with (x ++ sep ++ join sep (y :: l)).
    rewrite !length_app, IH.
    change (map (@length ascii) (x :: y :: l))
      with (length x :: map (@length ascii) (y :: l)).
    change (list_sum (length x :: map (@length ascii) (y :: l)))
      with (length x + list_sum (map (@length ascii) (y :: l))).
    change (length (x :: y :: l) - 1) with (S (length l)).
    change (length (y :: l) - 1) with (length l - 0).
    nia.
Qed.

Lemma total_length_snoc (l : list str) (x : str) :
  total_length (l ++ [x]) = total_length l + length x.
Proof.
  unfold total_length. rewrite map_app, list_sum_app.
  change (list_sum (map (@length ascii) [x])) with (length x + 0).
  rewrite Nat.add_0_r. reflexivity.
Qed.

Section SummaryFacts.

Variable max_length : nat.

Local Abbreviation within := (summary_within max_length).

Lemma summarize_sentence_within (st : list str * nat * bool) (s : str) :
  within st -> within (MLComponents.summarize_sentence max_length st s).
Proof.
  destruct st as [[sentences total] stopped]. intros [Ht [Hm Hk]].
  unfold MLComponents.summarize_sentence.
  destruct stopped; [repeat split; assumption|].
  destruct (nonempty (strip s) && (20 <? length (strip s))) eqn:E;
    [|repeat split; assumption].
  apply andb_true_iff in E. destruct E as [_ E]. apply Nat.ltb_lt in E.
  destruct (total + length (strip s) <=? max_length) eqn:Efit;
    [|repeat split; assumption].
  apply Nat.leb_le in Efit. unfold summary_within.
  rewrite total_length_snoc, length_app. simpl. lia.
Qed.

Lemma summarize_sentences_within (l : list str) (st : list str * nat * bool) :
  within st ->
  within (fold_left (MLComponents.summarize_sentence max_length) l st).
Proof.
  revert st. induction l as [|s l IH]; intros st H; [exact H|].
  cbn [fold_left]. apply IH. apply summarize_sentence_within. exact H.
Qed.

Lemma summarize_chunk_within (st : list str * nat * bool) (chunk : str) :
  within st -> within (MLComponents.summarize_chunk max_length st chunk).
Proof.
  destruct st as [[sentences total] stopped]. intros H.
  unfold MLComponents.summarize_chunk. destruct stopped; [exact H|].
  pose proof (summarize_sentences_within (split_on "."%char chunk)
                (sentences, total, false) H) as Hin.
  destruct (fold_left (MLComponents.summarize_sentence max_length)
              (split_on "."%char chunk) (sentences, total, false))
    as [[sentences' total'] stopped'].
  exact Hin.
Qed.

Lemma summarize_chunks_within (chunks : list str)
    (st : list str * nat * bool) :
  within st ->
  within (fold_left (MLComponents.summarize_chunk max_length) chunks st).
Proof.
  revert st. induction chunks as [|c l IH]; intros st H; [exact H|].
  cbn [fold_left]. apply IH. apply summarize_chunk_within. exact H.
Qed.

(** X8. A summary is empty or ends with a period, and it has at most
    [max_length + 2 * (max_length / 21)] characters: [max_length] bounds
    the sentences picked, each of more than 20 characters, and the summary
    adds the separators and the final period. *)
Theorem summarize_chunks_bounded (chunks : list str) :
  (MLComponents.summarize_chunks chunks max_length = []
   \/ MLComponents.endswith_dot
        (MLComponents.summarize_chunks chunks max_length) = true) /\
  length (MLComponents.summarize_chunks chunks max_length)
    <= max_length + 2 * (max_length / 21).
Proof.
  unfold MLComponents.summarize_chunks.
  destruct (negb (nonempty chunks)); [split; [left; reflexivity | simpl; lia]|].
  pose proof (summarize_chunks_within chunks ([], 0, false)) as H.
  destruct (fold_left (MLComponents.summarize_chunk max_length) chunks
              ([], 0, false)) as [[sentences total] stopped].
  assert (Hw : within (sentences, total, stopped)).
  { apply H. repeat split; simpl; lia. }
  destruct Hw as [Ht [Hm Hk]].
  assert (Hcount : length sentences <= max_length / 21)
    by (apply Nat.div_le_lower_bound; lia).
  pose proof (length_join (lit ". ") sentences) as Hlen.
  change (length (lit ". ")) with 2 in Hlen.
  set (summary := join (lit ". ") sentences) in *.
  destruct (nonempty summary) eqn:En; cbn [andb].
  - destruct (MLComponents.endswith_dot summary) eqn:Ed; cbn [negb].
    + split; [right; exact Ed | lia].
    + split.
      * right. unfold MLComponents.endswith_dot.
        rewrite rev_app_distr. reflexivity.
      * rewrite length_app. simpl.
        destruct sentences as [|s0 ss]; [discriminate En|].
        simpl in *. lia.
  - split; [left; destruct summary; [reflexivity | discriminate En] | lia].
Qed.

End SummaryFacts.

(** ** Question types *)

Lemma lower_char_idempotent (c : ascii) :
  lower_char (lower_char c) = lower_char c.
Proof.
  destruct c as [[] [] [] [] [] [] [] []]; vm_compute; reflexivity.
Qed.

Lemma lower_idempotent (s : str) : lower (lower s) = lower s.
Proof.
  unfold lower. rewrite map_map. apply map_ext. exact lower_char_idempotent.
Qed.

Lemma classify_question_type_label (question : str) :
  In (QuestionTypes.classify_question_type question) question_types.
Proof.
  unfold QuestionTypes.classify_question_type, question_types.
  repeat match goal with
         | |- context [if ?b then _ else _] => destruct b
         end; simpl; tauto.
Qed.

(** X9. [classify_question_type] answers with one of the six question
    types, and the answer does not depend on the case of the letters of
    the question. *)
Theorem classify_question_type_case (question : str) :
  In (QuestionTypes.classify_question_type question) question_types /\
  QuestionTypes.classify_question_type (lower question)
    = QuestionTypes.classify_question_type question.
Proof.
  split; [apply classify_question_type_label|].
  unfold QuestionTypes.classify_question_type.
  rewrite lower_idempotent. reflexivity.
Qed.

(** X10. [get_question_specific_prompt] always returns the formatted
    prompt followed by a blank line, ["Note: "] and the instruction of the
    question's type, which is never empty: the prompt without a note is
    never returned. *)
Theorem question_specific_prompt_has_note (question context : str) :
  let instruction :=
    QuestionTypes.dict_get QuestionTypes.type_specific_instructions
      (QuestionTypes.classify_question_type question) in
  instruction <> [] /\
  QuestionTypes.get_question_specific_prompt question context =
    Config.format_prompt context question
    ++ [Config.nl; Config.nl] ++ lit "Note: " ++ instruction.
Proof.
  intros instruction.
  assert (Hne : nonempty instruction = true).
  { unfold instruction.
    pose proof (classify_question_type_label question) as Hl.
    unfold question_types in Hl. simpl in Hl.
    destruct Hl as [<- | [<- | [<- | [<- | [<- | [<- | []]]]]]];
      vm_compute; reflexivity. }
  split.
  - intros E. rewrite E in Hne. discriminate Hne.
  - unfold QuestionTypes.get_question_specific_prompt. fold instruction.
    rewrite Hne. reflexivity.
Qed.

(** ** Evaluation at the edges *)

Lemma str_eqb_eq (a b : str) : str_eqb a b = true <-> a = b.
Proof.
  revert b. induction a as [|x a IH]; intros [|y b]; simpl;
    try (split; [discriminate | intros H; discriminate H]);
    [split; reflexivity|].
  rewrite andb_true_iff, Ascii.eqb_eq, IH. split.
  - intros [-> ->]. reflexivity.
  - intros H. inversion H. split; reflexivity.
Qed.

Lemma In_distinct (l : list str) (x : str) : In x (distinct l) <-> In x l.
Proof.
  induction l as [|y l IH]; [reflexivity|].
  cbn [distinct]. destruct (existsb (str_eqb y) l) eqn:E.
  - rewrite IH. split; [intros H; right; exact H|].
    intros [<- | H]; [|exact H].
    apply existsb_exists in E. destruct E as [z [Hz Hyz]].
    apply str_eqb_eq in Hyz. subst z. exact Hz.
  - simpl. rewrite IH. reflexivity.
Qed.

Lemma NoDup_distinct (l : list str) : NoDup (distinct l).
Proof.
  induction l as [|y l IH]; [constructor|].
  cbn [distinct]. destruct (existsb (str_eqb y) l) eqn:E; [exact IH|].
  constructor; [|exact IH].
  intros Hin. apply (proj1 (In_distinct l y)) in Hin.
  assert (Ht : existsb (str_eqb y) l = true).
  { apply existsb_exists. exists y. split; [exact Hin|].
    apply str_eqb_eq. reflexivity. }
  congruence.
Qed.

(** X13. The keywords of a text are the lower-cased words of the text
    that are longer than the minimum, each counted once: the list has no
    duplicates, and a word that differs from another only by case is the
    same keyword. *)
Theorem keywords_set (n : nat) (text : str) :
  NoDup (Evaluation.keywords n text) /\
  (forall k, In k (Evaluation.keywords n text) <->
     exists word, In word (split_ws text) /\ n < length word
                  /\ k = lower word) /\
  (forall k, In k (Evaluation.keywords n text) ->
     n < length k /\ lower k = k).
Proof.
  assert (Hchar : forall k, In k (Evaluation.keywords n text) <->
            exists word, In word (split_ws text) /\ n < length word
                         /\ k = lower word).
  { intros k. unfold Evaluation.keywords. rewrite In_distinct, in_map_iff.
    split.
    - intros [word [<- Hw]]. apply filter_In in Hw. destruct Hw as [Hw Hl].
      apply Nat.ltb_lt in Hl. exists word. repeat split; assumption.
    - intros [word [Hw [Hl ->]]]. exists word. split; [reflexivity|].
      apply filter_In. split; [exact Hw | apply Nat.ltb_lt; exact Hl]. }
  split; [apply NoDup_distinct|]. split; [exact Hchar|].
  intros k Hk. apply Hchar in Hk. destruct Hk as [word [_ [Hl ->]]].
  split; [unfold lower; rewrite length_map; exact Hl | apply lower_idempotent].
Qed.

Section EvaluationEdges.

Context `{Ext : Externals}.

(** X11. With nothing retrieved, [evaluate_retrieval] consults no model:
    whatever the embedding model does, it returns relevance 0.0, so the
    retrieval is not relevant at the default minimum of 0.6 and the
    assessment is "Needs improvement". *)
Theorem evaluate_retrieval_nothing_retrieved (query : str) :
  exists ev : Evaluation.RetrievalEval,
    Evaluation.evaluate_retrieval query [] 0.6 = inr ev /\
    Evaluation.relevance_score ev = 0.0%float /\
    Evaluation.is_relevant ev = false /\
    Evaluation.assessment ev = lit "Needs improvement".
Proof.
  eexists. split; [reflexivity|]. repeat split.
Qed.

End EvaluationEdges.

Lemma dropwhile_nil_all {A : Type} (p : A -> bool) (l : list A) :
  dropwhile p l = [] -> forall x, In x l -> p x = true.
Proof.
  induction l as [|y l IH]; [intros _ x []|].
  simpl. destruct (p y) eqn:E; [|discriminate].
  intros H x [<- | Hx]; [exact E | exact (IH H x Hx)].
Qed.

Lemma strip_nil_all_space (s : str) :
  strip s = [] -> forall c, In c s -> isspace c = true.
Proof.
  unfold strip, lstrip, rstrip. intros H.
  assert (Hrev : dropwhile isspace (rev (dropwhile isspace s)) = []).
  { apply (f_equal (@rev ascii)) in H. rewrite rev_involutive in H.
    exact H. }
  assert (Hl : dropwhile isspace s = []).
  { destruct (dropwhile_head isspace s) as [E | [x [r [E Hx]]]]; [exact E|].
    rewrite E in Hrev.
    pose proof (dropwhile_nil_all isspace _ Hrev x) as Hall.
    rewrite Hall in Hx; [discriminate Hx|].
    apply in_rev. rewrite rev_involutive. left. reflexivity. }
  exact (dropwhile_nil_all isspace s Hl).
Qed.

Lemma split_ws_all_space (s : str) :
  (forall c, In c s -> isspace c = true) -> split_ws s = [].
Proof.
  induction s as [|c s IH]; intros H; [reflexivity|].
  cbn [split_ws]. rewrite (H c (or_introl eq_refl)). apply IH.
  intros x Hx. apply H. right. exact Hx.
Qed.

(** X12. An answer that is empty or made of whitespace only has no
    answer, the length score 0.5 and the quality "Needs improvement",
    whatever the query and the context. *)
Theorem evaluate_answer_quality_blank (answer query context : str) :
  strip answer = [] ->
  let quality := Evaluation.evaluate_answer_quality answer query context in
  Evaluation.has_answer quality = false /\
  Evaluation.length_score quality = 0.5%float /\
  Evaluation.overall_quality quality = lit "Needs improvement".
Proof.
  intros Hblank quality. unfold quality, Evaluation.evaluate_answer_quality.
  cbn [Evaluation.has_answer Evaluation.length_score
       Evaluation.overall_quality].
  rewrite Hblank.
  rewrite (split_ws_all_space answer (strip_nil_all_space answer Hblank)).
  repeat split.
Qed.

Lemma evaluate_answer_quality_blank_witness :
  let quality :=
    Evaluation.evaluate_answer_quality (lit "   ") Samples.cat_question
      (lit "Cats purr.") in
  Evaluation.has_answer quality = false /\
  Evaluation.length_score quality = 0.5%float /\
  Evaluation.overall_quality quality = lit "Needs improvement".
Proof.
  apply (evaluate_answer_quality_blank (lit "   ") Samples.cat_question
           (lit "Cats purr.")).
  reflexivity.
Defined.

(** ** The answer without a hosted model *)



Section AnswerFacts.

Context `{Ext : Externals}.
Variable config : Config.t.

(** X15. [_get_llm_response] degrades to the fallback answerer: without an
    API key, or with the hosted model switched off, the hosted model is not
    consulted and the answer is the fallback answer; so it is when the
    call to the hosted model raises. When the call returns, the answer is
    its content stripped: empty, or without whitespace at either end. *)
Theorem get_llm_response_degrades (context question : str) :
  (Config.OPENAI_API_KEY config = [] \/ Config.USE_OPENAI config = false ->
   QAPipeline._get_llm_response config context question
     = QAPipeline._fallback_response context question) /\
  (forall e,
     chat_completion (Config.format_prompt context question) = inl e ->
     QAPipeline._get_llm_response config context question
       = QAPipeline._fallback_response context question) /\
  (forall content,
     Config.USE_OPENAI config = true ->
     Config.OPENAI_API_KEY config <> [] ->
     chat_completion (Config.format_prompt context question) = inr content ->
     QAPipeline._get_llm_response config context question = strip content
     /\ (strip content = [] \/ tight (strip content) = true)).
Proof.
  unfold QAPipeline._get_llm_response. split; [|split].
  - intros [-> | ->]; [rewrite andb_false_r|]; reflexivity.
  - intros e ->.
    destruct (Config.USE_OPENAI config
              && nonempty (Config.OPENAI_API_KEY config)); reflexivity.
  - intros content -> Hkey ->.
    destruct (Config.OPENAI_API_KEY config); [contradiction|].
    split; [reflexivity | apply strip_empty_or_tight].
Qed.

Lemma ask_embedding_fails (question : str) (top_k : option Z)
    (use_summarization : bool) (st : state) (e : exn) :
  Embeddings.create_query_embedding question = inl e ->
  QAPipeline.ask config true question top_k use_summarization st
    = (inl e, st).
Proof.
  intros He. unfold QAPipeline.ask. cbv beta iota delta [negb].
  unfold bind at 1. unfold call. rewrite He. reflexivity.
Qed.

(** X16. [ask] fails early without side effect: on a pipeline that is not
    loaded it returns the "not initialized" record and consults neither
    the embedding model nor the store; on a loaded pipeline, when the
    embedding of the question raises, it raises the same exception and the
    store handle is as before. *)
Theorem ask_early_exits (question : str) (top_k : option Z)
    (use_summarization : bool) (st : state) :
  QAPipeline.ask config false question top_k use_summarization st
    = (inr not_initialized, st) /\
  (forall e,
     Embeddings.create_query_embedding question = inl e ->
     QAPipeline.ask config true question top_k use_summarization st
       = (inl e, st)).
Proof.
  split; [reflexivity|].
  intros e He.
  exact (@ask_embedding_fails question top_k use_summarization st e He).
Qed.

(** X17. A [top_k] of 0 is not a request for no result: [search_similar]
    and [ask] take it as absent and use [TOP_K]. *)
Theorem top_k_zero_is_default (question : str) (e : vector)
    (loaded use_summarization : bool) (st : state) :
  Retrieval.search_similar config e (Some 0%Z) st
    = Retrieval.search_similar config e None st /\
  Retrieval.search_similar config e (Some (Config.TOP_K config)) st
    = Retrieval.search_similar config e None st /\
  QAPipeline.ask config loaded question (Some 0%Z) use_summarization st
    = QAPipeline.ask config loaded question None use_summarization st.
Proof.
  split; [reflexivity|]. split; [|reflexivity].
  rewrite !search_similar_unfold. unfold store_answer, or_default.
  destruct (Config.TOP_K config =? 0)%Z eqn:E; [|reflexivity].
  apply Z.eqb_eq in E. rewrite E. reflexivity.
Qed.

(** ** The outcomes of /ask *)

Lemma ask_question_after_ask (loaded : bool) (request : Main.QuestionRequest)
    (st st' : state) (outcome : res QAPipeline.Answer) :
  nonempty (strip (Main.question request)) = true ->
  QAPipeline.ask config loaded (Main.question request) (Main.top_k request)
    (Main.truthy (Main.use_summarization request)) st = (outcome, st') ->
  Main.ask_question config loaded request st =
  match outcome with
  | inl e =>
      (inl (HTTPException 500
              (lit "Internal server error: " ++ str_of_exn e)), st')
  | inr record =>
      if Main.truthy (Main.evaluate request)
         && nonempty (QAPipeline.sources record)
      then
        match Evaluation.comprehensive_evaluation (Main.question request)
                (QAPipeline.sources record) (QAPipeline.answer record) with
        | inl e =>
            (inl (HTTPException 500
                    (lit "Internal server error: " ++ str_of_exn e)), st')
        | inr report => (inr (response_of record (Some report)), st')
        end
      else (inr (response_of record None), st')
  end.
Proof.
  intros Hq Hask.
  unfold Main.ask_question, try_except, Main.ask_question_body.
  rewrite Hq. cbn [negb]. unfold bind at 1. rewrite Hask.
  destruct outcome as [e | record]; [reflexivity|].
  destruct (Main.truthy (Main.evaluate request)
            && nonempty (QAPipeline.sources record)); [|reflexivity].
  unfold bind, call, ret.
  destruct (Evaluation.comprehensive_evaluation (Main.question request)
              (QAPipeline.sources record) (QAPipeline.answer record));
    reflexivity.
Qed.

(** X19. A question asked before any document is processed is answered
    with status 200: the response carries the "not initialized" message as
    its answer, no source and no evaluation, even when an evaluation is
    requested, and no model is consulted. *)
Theorem ask_question_not_loaded (request : Main.QuestionRequest)
    (st : state) :
  nonempty (strip (Main.question request)) = true ->
  Main.ask_question config false request st
    = (inr (response_of not_initialized None), st).
Proof.
  intros Hq.
  rewrite (@ask_question_after_ask false request st st (inr not_initialized)
             Hq eq_refl).
  cbn [QAPipeline.sources not_initialized nonempty]. rewrite andb_false_r.
  reflexivity.
Qed.

(** X20. On a loaded pipeline, when the embedding of the question raises,
    [POST /ask] answers with status 500 and the detail "Internal server
    error: " followed by the text of the exception. When [ask] returns a
    record without sources, the response carries it with status 200 and
    without evaluation, even when an evaluation is requested. *)
Theorem ask_question_outcomes (loaded : bool)
    (request : Main.QuestionRequest) (st : state) :
  nonempty (strip (Main.question request)) = true ->
  (forall e,
     loaded = true ->
     Embeddings.create_query_embedding (Main.question request) = inl e ->
     Main.ask_question config loaded request st =
     (inl (HTTPException 500
             (lit "Internal server error: " ++ str_of_exn e)), st)) /\
  (forall record st',
     QAPipeline.ask config loaded (Main.question request)
       (Main.top_k request) (Main.truthy (Main.use_summarization request)) st
       = (inr record, st') ->
     QAPipeline.sources record = [] ->
     Main.ask_question config loaded request st
       = (inr (response_of record None), st')).
Proof.
  intros Hq. split.
  - intros e -> He.
    pose proof (@ask_embedding_fails (Main.question request)
                  (Main.top_k request)
                  (Main.truthy (Main.use_summarization request)) st e He)
      as Hask.
    rewrite (@ask_question_after_ask true request st st (inl e) Hq Hask).
    reflexivity.
  - intros record st' Hask Hsrc.
    rewrite (@ask_question_after_ask loaded request st st' (inr record)
               Hq Hask).
    rewrite Hsrc, andb_false_r. reflexivity.
Qed.

End AnswerFacts.

Lemma get_llm_response_degrades_witness :
  @QAPipeline._get_llm_response Double.externals Double.config
    (lit "Cats purr.") Samples.cat_question
    = QAPipeline._fallback_response (lit "Cats purr.") Samples.cat_question
  /\ @QAPipeline._get_llm_response Double.externals Double.keyed_config
       (lit "Cats purr.") Samples.cat_question
     = QAPipeline._fallback_response (lit "Cats purr.") Samples.cat_question
  /\ @QAPipeline._get_llm_response Double.hosted Double.keyed_config
       (lit "Cats purr.") Samples.cat_question = lit "Cats purr.".
Proof.
  split; [|split].
  - apply (proj1 (@get_llm_response_degrades Double.externals Double.config
                    (lit "Cats purr.") Samples.cat_question)).
    left. reflexivity.
  - apply (proj1 (proj2 (@get_llm_response_degrades Double.externals
                           Double.keyed_config (lit "Cats purr.")
                           Samples.cat_question))
             (OtherException (lit "no API key"))).
    reflexivity.
  - apply (proj2 (proj2 (@get_llm_response_degrades Double.hosted
                           Double.keyed_config (lit "Cats purr.")
                           Samples.cat_question))
             (lit "  Cats purr.  ")); [reflexivity | discriminate | reflexivity].
Defined.

Lemma ask_early_exits_witness :
  @QAPipeline.ask Double.offline Double.config true Samples.cat_question
    None false Double.offline_absent
  = (inl (OtherException (lit "model not available")),
     Double.offline_absent).
Proof.
  apply (proj2 (@ask_early_exits Double.offline Double.config
                  Samples.cat_question None false Double.offline_absent)).
  reflexivity.
Defined.

Lemma ask_question_not_loaded_witness :
  @Main.ask_question Double.offline Double.config false Samples.cat_request
    Double.offline_absent
  = (inr (response_of not_initialized None), Double.offline_absent).
Proof.
  apply (@ask_question_not_loaded Double.offline Double.config
           Samples.cat_request Double.offline_absent).
  vm_compute. reflexivity.
Defined.

Lemma ask_question_outcomes_witness :
  @Main.ask_question Double.offline Double.config true Samples.cat_request
    Double.offline_absent
  = (inl (HTTPException 500
            (lit "Internal server error: model not available")),
     Double.offline_absent)
  /\ @Main.ask_question Double.externals Double.config true
       Samples.cat_request Double.absent
     = (inr (response_of
               {| QAPipeline.answer :=
                    lit "I couldn't find relevant information to answer your question.";
                  QAPipeline.sources := [];
                  QAPipeline.confidence := 0.0;
                  QAPipeline.num_sources := 0 |} None), Double.absent).
Proof.
  split.
  - apply (proj1 (@ask_question_outcomes Double.offline Double.config true
                    Samples.cat_request Double.offline_absent eq_refl)
             (OtherException (lit "model not available"))); reflexivity.
  - apply (proj2 (@ask_question_outcomes Double.externals Double.config true
                    Samples.cat_request Double.absent eq_refl));
      reflexivity.
Defined.

(** ** Ingestion *)

Lemma read_pages_ok (pages : list str) (text : str) :
  DataIngestion.read_pages (map inr pages) text
  = inr (text ++ pages_text pages).
Proof.
  revert text. induction pages as [|p l IH]; intros text.
  - simpl. rewrite app_nil_r. reflexivity.
  - cbn [map DataIngestion.read_pages]. rewrite IH. unfold pages_text.
    cbn [map concat]. repeat rewrite <- app_assoc. reflexivity.
Qed.

Lemma read_pages_fail (pages : list (res str)) (text : str) (e : exn) :
  In (inl e) pages -> exists e', DataIngestion.read_pages pages text = inl e'.
Proof.
  revert text. induction pages as [|p l IH]; intros text; [intros []|].
  intros [-> | Hin]; [exists e; reflexivity|].
  cbn [DataIngestion.read_pages]. destruct p as [e0 | t];
    [exists e0; reflexivity | exact (IH _ Hin)].
Qed.

(** X21. [extract_text_from_pdf] is all or nothing: for a PDF whose pages
    are all read it returns the texts of the pages, a line feed after
    each; when the file cannot be opened or one page cannot be read, it
    returns the empty string, and the text of the pages read before is
    lost. *)
Theorem extract_text_all_or_nothing :
  (forall pages : list str,
     DataIngestion.extract_text_from_pdf (inr (map inr pages))
       = pages_text pages) /\
  (forall (pages : list (res str)) (e : exn),
     In (inl e) pages ->
     DataIngestion.extract_text_from_pdf (inr pages) = []) /\
  (forall e : exn, DataIngestion.extract_text_from_pdf (inl e) = []).
Proof.
  split; [|split].
  - intros pages. unfold DataIngestion.extract_text_from_pdf.
    rewrite read_pages_ok. reflexivity.
  - intros pages e Hin. unfold DataIngestion.extract_text_from_pdf.
    destruct (read_pages_fail pages [] e Hin) as [e' ->]. reflexivity.
  - reflexivity.
Qed.

Lemma extract_text_all_or_nothing_witness :
  DataIngestion.extract_text_from_pdf
    (inr [inr Samples.two_sentences; inl (OtherException (lit "bad page"))])
  = [].
Proof.
  apply (proj1 (proj2 extract_text_all_or_nothing) _
           (OtherException (lit "bad page"))).
  right. left. reflexivity.
Defined.

Lemma ingest_loop (pdf_files : list DataIngestion.Pdf) (texts : list str) :
  fold_left DataIngestion.ingest_step pdf_files texts =
  texts ++ filter nonblank
             (map DataIngestion.extract_text_from_pdf pdf_files).
Proof.
  revert texts. induction pdf_files as [|f l IH]; intros texts.
  - simpl. rewrite app_nil_r. reflexivity.
  - cbn [fold_left map filter]. rewrite IH.
    unfold DataIngestion.ingest_step, nonblank.
    destruct (nonempty (strip (DataIngestion.extract_text_from_pdf f)));
      [rewrite <- app_assoc|]; reflexivity.
Qed.

Lemma ingest_pdfs_present (pdf_files : list DataIngestion.Pdf) :
  DataIngestion.ingest_pdfs (DataIngestion.Present pdf_files) =
  inr (filter nonblank (map DataIngestion.extract_text_from_pdf pdf_files),
       DataIngestion.Present pdf_files).
Proof.
  unfold DataIngestion.ingest_pdfs.
  destruct pdf_files as [|f l]; [reflexivity|].
  cbn [nonempty negb]. rewrite ingest_loop. reflexivity.
Qed.

(** X22. [ingest_pdfs] returns, in the order of the files, the texts
    extracted from the PDF files that are not blank, and nothing else:
    every text returned is not blank and there are at most as many as
    files; from files that are all read, these are the texts of their
    pages. A file that cannot be opened is skipped without any effect on
    the others. A missing directory is created and gives no text, and so
    does the directory it leaves. *)
Theorem ingest_pdfs_texts (pdf_files : list DataIngestion.Pdf) :
  DataIngestion.ingest_pdfs (DataIngestion.Present pdf_files)
    = inr (filter nonblank
             (map DataIngestion.extract_text_from_pdf pdf_files),
           DataIngestion.Present pdf_files) /\
  Forall (fun text => nonblank text = true)
    (filter nonblank (map DataIngestion.extract_text_from_pdf pdf_files)) /\
  length (filter nonblank
            (map DataIngestion.extract_text_from_pdf pdf_files))
    <= length pdf_files /\
  (forall files : list (list str),
     pdf_files = map (fun pages => inr (map inr pages)) files ->
     DataIngestion.ingest_pdfs (DataIngestion.Present pdf_files)
       = inr (filter nonblank (map pages_text files),
              DataIngestion.Present pdf_files)) /\
  (forall before after e texts,
     DataIngestion.ingest_pdfs (DataIngestion.Present (before ++ after))
       = inr (texts, DataIngestion.Present (before ++ after)) ->
     DataIngestion.ingest_pdfs
       (DataIngestion.Present (before ++ inl e :: after))
       = inr (texts, DataIngestion.Present (before ++ inl e :: after))) /\
  (exists data_dir,
     DataIngestion.ingest_pdfs (DataIngestion.Missing (inr tt))
       = inr ([], data_dir)
     /\ DataIngestion.ingest_pdfs data_dir = inr ([], data_dir)).
Proof.
  split; [apply ingest_pdfs_present|]. split; [|split; [|split; [|split]]].
  - apply Forall_forall. intros t Ht. apply filter_In in Ht.
    exact (proj2 Ht).
  - etransitivity; [apply filter_length_le|]. rewrite length_map.
    apply Nat.le_refl.
  - intros files ->. rewrite ingest_pdfs_present, map_map.
    do 2 f_equal. apply (f_equal (filter nonblank)).
    apply map_ext. intros pages.
    unfold DataIngestion.extract_text_from_pdf.
    rewrite read_pages_ok. reflexivity.
  - intros before after e texts. rewrite !ingest_pdfs_present.
    intros H. inversion H as [Ht]. rewrite !map_app, !filter_app.
    reflexivity.
  - exists (DataIngestion.Present []). split; reflexivity.
Qed.

Lemma ingest_pdfs_texts_witness :
  DataIngestion.ingest_pdfs
    (DataIngestion.Present
       [inr [inr Samples.two_sentences; inr Samples.sentence];
        inr [inr (lit "   ")];
        inr [inr Samples.sentence]])
  = inr ([pages_text [Samples.two_sentences; Samples.sentence];
          pages_text [Samples.sentence]],
         DataIngestion.Present
           [inr [inr Samples.two_sentences; inr Samples.sentence];
            inr [inr (lit "   ")];
            inr [inr Samples.sentence]])
  /\ DataIngestion.ingest_pdfs (DataIngestion.Present Samples.three_pdfs)
     = inr ([pages_text [Samples.two_sentences; Samples.sentence]],
            DataIngestion.Present Samples.three_pdfs).
Proof.
  split.
  - exact (proj1 (proj2 (proj2 (proj2
             (ingest_pdfs_texts
                [inr [inr Samples.two_sentences; inr Samples.sentence];
                 inr [inr (lit "   ")];
                 inr [inr Samples.sentence]]))))
             [[Samples.two_sentences; Samples.sentence]; [lit "   "];
              [Samples.sentence]] eq_refl).
  - apply (proj1 (proj2 (proj2 (proj2 (proj2 (ingest_pdfs_texts [])))))
             [inr [inr Samples.two_sentences; inr Samples.sentence]]
             [inr [inr Samples.two_sentences;
                   inl (OtherException (lit "bad page"))]]
             (OtherException (lit "not a PDF"))).
    vm_compute. reflexivity.
Defined.

(** ** Rebuilding the collection *)

Lemma doc_id_injective (i j : nat) :
  VectorDb.doc_id i = VectorDb.doc_id j -> i = j.
Proof.
  unfold VectorDb.doc_id. intros H. apply app_inv_head in H.
  apply (f_equal string_of_list_ascii) in H.
  rewrite !string_of_list_ascii_of_string in H.
  apply (f_equal NilEmpty.uint_of_string) in H.
  rewrite !NilEmpty.usu in H. inversion H as [Hu].
  apply (f_equal Nat.of_uint) in Hu.
  rewrite !DecimalNat.Unsigned.of_to in Hu. exact Hu.
Qed.

Lemma NoDup_map_injective {A B : Type} (f : A -> B) (l : list A) :
  (forall x y, f x = f y -> x = y) -> NoDup l -> NoDup (map f l).
Proof.
  intros Hinj. induction 1 as [|x l Hx _ IH]; [constructor|].
  cbn [map]. constructor; [|exact IH].
  intros Hin. apply in_map_iff in Hin. destruct Hin as [y [Hy Hin]].
  apply Hinj in Hy. subst y. exact (Hx Hin).
Qed.

Lemma doc_ids_distinct (n : nat) :
  NoDup (map VectorDb.doc_id (seq 0 n))
  /\ length (map VectorDb.doc_id (seq 0 n)) = n.
Proof.
  split; [|rewrite length_map; apply length_seq].
  apply NoDup_map_injective; [exact doc_id_injective | apply seq_NoDup].
Qed.

Section RebuildFacts.

Context `{Sto : Store}.
Variable config : Config.t.

Lemma setup_vector_db_unfold (embeddings : list vector) (texts : list str)
    (st : state) :
  VectorDb.setup_vector_db embeddings texts st =
  match created_collection with
  | inl e => (inl e, {| persisted := None; _collection := _collection st |})
  | inr collection =>
      match collection_add collection embeddings texts
              (map VectorDb.doc_id (seq 0 (length texts))) with
      | inl e =>
          (inl e, {| persisted := Some collection;
                     _collection := Some collection |})
      | inr filled =>
          (inr filled, {| persisted := Some filled;
                          _collection := Some filled |})
      end
  end.
Proof.
  unfold VectorDb.setup_vector_db, bind, get, put, call, ret.
  cbn [persisted _collection].
  destruct created_collection as [e | collection]; [reflexivity|].
  destruct (collection_add collection embeddings texts
              (map VectorDb.doc_id (seq 0 (length texts))));
    reflexivity.
Qed.

(** X23. A rebuild replaces the collection: when the store creates the
    collection and accepts the documents, [setup_vector_db] leaves, whatever
    was stored before, a collection that holds exactly the given texts,
    which is both the persisted collection and the global handle; the
    identifiers [doc_0], [doc_1], ... it gives are pairwise distinct, one
    per text. *)
Theorem setup_vector_db_replaces (embeddings : list vector)
    (texts : list str) (st : state) (collection filled : Collection) :
  created_is_empty -> add_appends_documents ->
  created_collection = inr collection ->
  collection_add collection embeddings texts
    (map VectorDb.doc_id (seq 0 (length texts))) = inr filled ->
  VectorDb.setup_vector_db embeddings texts st =
    (inr filled, {| persisted := Some filled; _collection := Some filled |})
  /\ collection_documents filled = texts
  /\ NoDup (map VectorDb.doc_id (seq 0 (length texts)))
  /\ length (map VectorDb.doc_id (seq 0 (length texts))) = length texts.
Proof.
  intros Hempty Happend Hcreate Hadd.
  rewrite setup_vector_db_unfold, Hcreate, Hadd.
  split; [reflexivity|]. split.
  - rewrite (Happend _ _ _ _ _ Hadd), (Hempty _ Hcreate). reflexivity.
  - apply doc_ids_distinct.
Qed.

(** X24. A rebuild is not atomic: when the store creates the collection
    and then refuses the documents, [setup_vector_db] raises, the previous
    collection is gone and the new, empty one is in its place, as the
    persisted collection and as the global handle. A later
    [search_similar] that the store answers returns no result; one that
    the store refuses raises the exception of the store. *)
Theorem setup_vector_db_failure_empties (embeddings : list vector)
    (texts : list str) (st : state) (collection : Collection) (e : exn)
    (query : vector) (top_k : option Z) :
  created_is_empty -> query_returns_held_documents ->
  created_collection = inr collection ->
  collection_add collection embeddings texts
    (map VectorDb.doc_id (seq 0 (length texts))) = inl e ->
  exists st',
    VectorDb.setup_vector_db embeddings texts st = (inl e, st')
    /\ persisted st' = Some collection
    /\ _collection st' = Some collection
    /\ (forall r,
          store_answer config collection query top_k = inr r ->
          Retrieval.search_similar config query top_k st' = (inr [], st'))
    /\ (forall ex,
          store_answer config collection query top_k = inl ex ->
          Retrieval.search_similar config query top_k st' = (inl ex, st')).
Proof.
  intros Hempty Hquery Hcreate Hadd.
  rewrite setup_vector_db_unfold, Hcreate, Hadd.
  eexists. split; [reflexivity|]. split; [reflexivity|].
  split; [reflexivity|]. split.
  - intros r Hr.
    rewrite (@search_similar_answered _ config query top_k
               {| persisted := Some collection;
                  _collection := Some collection |} collection r
               eq_refl Hr).
    unfold hits.
    rewrite (@first_or_empty_no_documents _ collection query _ r Hquery
               (Hempty _ Hcreate) Hr).
    reflexivity.
  - intros ex Hr.
    exact (@search_similar_raises _ config query top_k
             {| persisted := Some collection;
                _collection := Some collection |} collection ex
             eq_refl Hr).
Qed.

End RebuildFacts.

Lemma double_store_contracts :
  @created_is_empty Double.externals Double.store
  /\ @add_appends_documents Double.externals Double.store.
Proof.
  split.
  - intros c H. inversion H. reflexivity.
  - intros c embeddings docs ids c'. simpl.
    destruct (negb (nonempty docs)); [discriminate|].
    intros H. inversion H. rewrite map_app, map_map. simpl.
    rewrite map_id. reflexivity.
Qed.

Lemma setup_vector_db_replaces_witness :
  @VectorDb.setup_vector_db Double.externals Double.store
    [[0.75%float; 0.5%float]; [0.75%float; 0.5%float]] Samples.cat_texts
    (Double.loaded Double.animal_documents)
  = (inr [(lit "Cats purr.", 0.25%float); (lit "Dogs bark.", 0.25%float)],
     Double.loaded
       [(lit "Cats purr.", 0.25%float); (lit "Dogs bark.", 0.25%float)]).
Proof.
  apply (@setup_vector_db_replaces Double.externals Double.store
           [[0.75%float; 0.5%float]; [0.75%float; 0.5%float]]
           Samples.cat_texts (Double.loaded Double.animal_documents) []
           [(lit "Cats purr.", 0.25%float); (lit "Dogs bark.", 0.25%float)]
           (proj1 double_store_contracts) (proj2 double_store_contracts)
           eq_refl eq_refl).
Defined.

Lemma setup_vector_db_failure_empties_witness :
  exists st',
    @VectorDb.setup_vector_db Double.externals Double.store [] []
      (Double.loaded Double.animal_documents)
    = (inl (OtherException (lit "empty batch")), st')
    /\ st' = Double.loaded []
    /\ Retrieval.search_similar Double.config [1.0%float; 0.0%float] None
         st' = (inr [], st').
Proof.
  destruct (@setup_vector_db_failure_empties Double.externals Double.store
              Double.config [] [] (Double.loaded Double.animal_documents) []
              (OtherException (lit "empty batch")) [1.0%float; 0.0%float]
              None (proj1 double_store_contracts) canned_query_sound
              eq_refl eq_refl)
    as [st' [Hrun [Hp [Hc [Hanswered _]]]]].
  exists st'. split; [exact Hrun|]. split.
  - destruct st' as [p c]. cbn [persisted _collection] in Hp, Hc.
    subst p c. reflexivity.
  - exact (Hanswered _ eq_refl).
Defined.

(** ** Processing the documents *)

Section ProcessingFacts.

Context `{Sto : Store}.
Variable config : Config.t.
Variable encoding : Preprocessing.Encoding.

Local Abbreviation chunks_of texts :=
  (Preprocessing.preprocess_text encoding texts (Config.CHUNK_SIZE config)
     (Config.CHUNK_OVERLAP config)).

Lemma create_embeddings_texts (texts texts' : list str)
    (embeddings : list vector) :
  Embeddings.create_embeddings texts = inr (embeddings, texts') ->
  texts' = texts.
Proof.
  unfold Embeddings.create_embeddings.
  destruct texts as [|t ts]; cbn [nonempty negb].
  - intros H. inversion H. reflexivity.
  - destruct (Embeddings.encode_all (Embeddings.batches 32 (t :: ts)));
      intros H; inversion H. reflexivity.
Qed.

(** [process_documents] once the documents are ingested. *)
Lemma process_documents_after_ingest (loaded force_rebuild : bool)
    (data_dir data_dir' : DataIngestion.DataDir) (texts : list str)
    (st : state) :
  loaded && negb force_rebuild = false ->
  DataIngestion.ingest_pdfs data_dir = inr (texts, data_dir') ->
  Pipeline.process_documents config encoding loaded data_dir force_rebuild st
  = if negb (nonempty texts) then (inr (loaded, data_dir'), st)
    else
      match Embeddings.create_embeddings (chunks_of texts) with
      | inl e => (inl e, st)
      | inr (embeddings, chunks) =>
          match VectorDb.setup_vector_db embeddings chunks st with
          | (inl e, st') => (inl e, st')
          | (inr _, st') => (inr (true, data_dir'), st')
          end
      end.
Proof.
  intros Hgo Hingest. unfold Pipeline.process_documents.
  rewrite Hgo. unfold bind at 1. unfold call at 1. rewrite Hingest.
  cbv beta iota.
  destruct (negb (nonempty texts)); [reflexivity|].
  unfold bind at 1. unfold call at 1.
  destruct (Embeddings.create_embeddings (chunks_of texts))
    as [e | [embeddings chunks]]; [reflexivity|].
  cbv beta iota. unfold bind at 1.
  destruct (VectorDb.setup_vector_db embeddings chunks st) as [[e | c] st'];
    reflexivity.
Qed.

Lemma process_documents_ingest_fails (loaded force_rebuild : bool)
    (data_dir : DataIngestion.DataDir) (st : state) (e : exn) :
  loaded && negb force_rebuild = false ->
  DataIngestion.ingest_pdfs data_dir = inl e ->
  Pipeline.process_documents config encoding loaded data_dir force_rebuild st
    = (inl e, st).
Proof.
  intros Hgo He. unfold Pipeline.process_documents. rewrite Hgo.
  unfold bind at 1. unfold call at 1. rewrite He. reflexivity.
Qed.

Lemma process_documents_no_text (loaded force_rebuild : bool)
    (data_dir data_dir' : DataIngestion.DataDir) (st : state) :
  loaded && negb force_rebuild = false ->
  DataIngestion.ingest_pdfs data_dir = inr ([], data_dir') ->
  Pipeline.process_documents config encoding loaded data_dir force_rebuild st
    = (inr (loaded, data_dir'), st).
Proof.
  intros Hgo Hi.
  rewrite (process_documents_after_ingest _ _ _ st Hgo Hi). reflexivity.
Qed.

(** X25. [process_documents] leaves the vector store and the
    [vector_db_loaded] flag as they are in four cases: the pipeline is
    loaded and no rebuild is forced (nothing is even read); the directory
    cannot be created (the exception is raised); no PDF gives a text; the
    embedding model raises (the exception is raised before the existing
    collection is deleted). *)
Theorem process_documents_untouched (loaded force_rebuild : bool)
    (data_dir : DataIngestion.DataDir) (st : state) :
  Pipeline.process_documents config encoding true data_dir false st
    = (inr (true, data_dir), st) /\
  (loaded && negb force_rebuild = false ->
   (forall e,
      DataIngestion.ingest_pdfs data_dir = inl e ->
      Pipeline.process_documents config encoding loaded data_dir
        force_rebuild st = (inl e, st)) /\
   (forall data_dir',
      DataIngestion.ingest_pdfs data_dir = inr ([], data_dir') ->
      Pipeline.process_documents config encoding loaded data_dir
        force_rebuild st = (inr (loaded, data_dir'), st)) /\
   (forall texts data_dir' e,
      DataIngestion.ingest_pdfs data_dir = inr (texts, data_dir') ->
      Embeddings.create_embeddings (chunks_of texts) = inl e ->
      texts <> [] ->
      Pipeline.process_documents config encoding loaded data_dir
        force_rebuild st = (inl e, st))).
Proof.
  split; [reflexivity|]. intros Hgo. split; [|split].
  - intros e He. exact (process_documents_ingest_fails _ _ _ st Hgo He).
  - intros data_dir' Hi. exact (process_documents_no_text _ _ _ st Hgo Hi).
  - intros texts data_dir' e Hi He Hne.
    rewrite (process_documents_after_ingest _ _ _ st Hgo Hi), He.
    destruct texts; [contradiction | reflexivity].
Qed.

(** X26. When the documents give texts, the model embeds their chunks and
    the store accepts them, [process_documents] returns with
    [vector_db_loaded] set and leaves a collection that holds exactly the
    chunks of the texts, each of more than 10 tokens; a pipeline
    constructed afterwards finds it and is loaded. *)
Theorem process_documents_rebuilds (loaded force_rebuild : bool)
    (data_dir data_dir' : DataIngestion.DataDir) (texts chunks : list str)
    (embeddings : list vector) (collection filled : Collection)
    (st : state) :
  created_is_empty -> add_appends_documents ->
  loaded && negb force_rebuild = false ->
  DataIngestion.ingest_pdfs data_dir = inr (texts, data_dir') ->
  texts <> [] ->
  Embeddings.create_embeddings (chunks_of texts) = inr (embeddings, chunks) ->
  created_collection = inr collection ->
  collection_add collection embeddings chunks
    (map VectorDb.doc_id (seq 0 (length chunks))) = inr filled ->
  let st' := {| persisted := Some filled; _collection := Some filled |} in
  Pipeline.process_documents config encoding loaded data_dir force_rebuild st
    = (inr (true, data_dir'), st') /\
  collection_documents filled = chunks_of texts /\
  (forall chunk, In chunk (collection_documents filled) ->
     10 < Preprocessing.count_tokens encoding chunk) /\
  Pipeline.init st' = (inr true, st').
Proof.
  intros Hempty Happend Hgo Hi Hne Hemb Hcreate Hadd st'.
  assert (Hchunks : chunks = chunks_of texts)
    by exact (create_embeddings_texts _ Hemb).
  assert (Hdocs : collection_documents filled = chunks_of texts).
  { rewrite (Happend _ _ _ _ _ Hadd), (Hempty _ Hcreate), Hchunks.
    reflexivity. }
  split; [|split; [exact Hdocs|split; [|reflexivity]]].
  - rewrite (process_documents_after_ingest _ _ _ st Hgo Hi), Hemb.
    rewrite setup_vector_db_unfold, Hcreate, Hadd.
    destruct texts; [contradiction | reflexivity].
  - intros chunk Hin. rewrite Hdocs in Hin.
    unfold Preprocessing.preprocess_text in Hin. apply in_flat_map in Hin.
    destruct Hin as [text [_ Hin]].
    exact (chunk_text_big_enough _ _ _ _ _ Hin).
Qed.

(** X27. Documents too short to give a chunk empty the store: when the
    texts are not blank but no chunk passes the minimum size, the existing
    collection is deleted all the same and replaced by a new one that
    holds nothing, whether the store accepts or refuses the empty batch;
    a pipeline constructed afterwards is loaded. *)
Theorem process_documents_short_texts (loaded force_rebuild : bool)
    (data_dir data_dir' : DataIngestion.DataDir) (texts : list str)
    (collection : Collection) (st : state) :
  created_is_empty -> add_appends_documents ->
  loaded && negb force_rebuild = false ->
  DataIngestion.ingest_pdfs data_dir = inr (texts, data_dir') ->
  texts <> [] ->
  chunks_of texts = [] ->
  created_collection = inr collection ->
  exists outcome left_behind,
    Pipeline.process_documents config encoding loaded data_dir
      force_rebuild st
    = (outcome,
       {| persisted := Some left_behind; _collection := Some left_behind |})
    /\ collection_documents left_behind = []
    /\ Pipeline.init
         {| persisted := Some left_behind; _collection := Some left_behind |}
       = (inr true,
          {| persisted := Some left_behind;
             _collection := Some left_behind |}).
Proof.
  intros Hempty Happend Hgo Hi Hne Hnone Hcreate.
  rewrite (process_documents_after_ingest _ _ _ st Hgo Hi), Hnone.
  destruct texts; [contradiction|]. cbn [nonempty negb].
  change (Embeddings.create_embeddings []) with
    (inr ([], []) : res (list vector * list str)).
  cbv beta iota. rewrite setup_vector_db_unfold, Hcreate.
  destruct (collection_add collection [] []
              (map VectorDb.doc_id (seq 0 (length (@nil str)))))
    as [e | filled] eqn:Hadd.
  - exists (inl e), collection. split; [reflexivity|].
    split; [exact (Hempty _ Hcreate) | reflexivity].
  - exists (inr (true, data_dir')), filled. split; [reflexivity|]. split.
    + rewrite (Happend _ _ _ _ _ Hadd), (Hempty _ Hcreate). reflexivity.
    + reflexivity.
Qed.

(** X28. What the handler of [POST /process] answers. On a loaded
    pipeline without [force_rebuild], and when no PDF gives a text, it
    answers "success" with [vector_db_loaded] as it was, and the store is
    untouched. When the directory cannot be created, and when the
    embedding model raises, it answers with status 500 and the detail
    "Error processing documents: " followed by the text of the exception,
    and the store is untouched as well. *)
Theorem process_endpoint_outcomes (loaded force_rebuild : bool)
    (data_dir : DataIngestion.DataDir) (st : state) :
  Endpoints.process_documents config encoding true data_dir false st
    = (inr ({| Endpoints.process_status := lit "success";
               Endpoints.message := lit "Documents processed successfully";
               Endpoints.process_vector_db_loaded := true |},
            data_dir), st) /\
  (loaded && negb force_rebuild = false ->
   (forall data_dir',
      DataIngestion.ingest_pdfs data_dir = inr ([], data_dir') ->
      Endpoints.process_documents config encoding loaded data_dir
        force_rebuild st
      = (inr ({| Endpoints.process_status := lit "success";
                 Endpoints.message := lit "Documents processed successfully";
                 Endpoints.process_vector_db_loaded := loaded |},
              data_dir'), st)) /\
   (forall e,
      DataIngestion.ingest_pdfs data_dir = inl e ->
      Endpoints.process_documents config encoding loaded data_dir
        force_rebuild st
      = (inl (HTTPException 500
                (lit "Error processing documents: " ++ str_of_exn e)), st)) /\
   (forall texts data_dir' e,
      DataIngestion.ingest_pdfs data_dir = inr (texts, data_dir') ->
      texts <> [] ->
      Embeddings.create_embeddings (chunks_of texts) = inl e ->
      Endpoints.process_documents config encoding loaded data_dir
        force_rebuild st
      = (inl (HTTPException 500
                (lit "Error processing documents: " ++ str_of_exn e)), st))).
Proof.
  split; [reflexivity|]. intros Hgo. split; [|split].
  - intros data_dir' Hi.
    unfold Endpoints.process_documents, try_except. unfold bind at 1.
    rewrite (process_documents_no_text _ _ _ st Hgo Hi). reflexivity.
  - intros e He.
    unfold Endpoints.process_documents, try_except. unfold bind at 1.
    rewrite (process_documents_ingest_fails _ _ _ st Hgo He). reflexivity.
  - intros texts data_dir' e Hi Hne He.
    unfold Endpoints.process_documents, try_except. unfold bind at 1.
    rewrite (process_documents_after_ingest _ _ _ st Hgo Hi), He.
    destruct texts; [contradiction | reflexivity].
Qed.

End ProcessingFacts.


Lemma process_documents_untouched_witness :
  @Pipeline.process_documents Double.externals Double.store Double.config None
    false (DataIngestion.Missing (inl (OtherException (lit "read-only"))))
    false (Double.loaded Double.animal_documents)
  = (inl (OtherException (lit "read-only")),
     Double.loaded Double.animal_documents).
Proof.
  exact (proj1
           (proj2
              (@process_documents_untouched Double.externals Double.store
                 Double.config None false false
                 (DataIngestion.Missing
                    (inl (OtherException (lit "read-only"))))
                 (Double.loaded Double.animal_documents))
              eq_refl)
           (OtherException (lit "read-only")) eq_refl).
Defined.

Lemma process_documents_rebuilds_witness :
  let chunks :=
    Preprocessing.preprocess_text None
      [pages_text [Samples.two_sentences; Samples.sentence]] 500 50 in
  let filled := map (fun d => (d, 0.25%float)) chunks in
  @Pipeline.process_documents Double.externals Double.store Double.config None
    true (DataIngestion.Present Samples.three_pdfs) true
    (Double.loaded Double.animal_documents)
  = (inr (true, DataIngestion.Present Samples.three_pdfs),
     Double.loaded filled)
  /\ map fst filled = chunks.
Proof.
  intros chunks filled.
  assert (Hne : [pages_text [Samples.two_sentences; Samples.sentence]] <> [])
    by discriminate.
  pose proof
    (@process_documents_rebuilds Double.externals Double.store Double.config
       None true true (DataIngestion.Present Samples.three_pdfs)
       (DataIngestion.Present Samples.three_pdfs)
       [pages_text [Samples.two_sentences; Samples.sentence]] chunks
       [[0.75%float; 0.5%float]] [] filled
       (Double.loaded Double.animal_documents)
       (proj1 double_store_contracts) (proj2 double_store_contracts)
       eq_refl eq_refl Hne eq_refl eq_refl eq_refl) as H.
  split; [exact (proj1 H) | exact (proj1 (proj2 H))].
Defined.

Lemma process_documents_short_texts_witness :
  exists outcome left_behind,
    @Pipeline.process_documents Double.externals Double.store Double.config
      None false (DataIngestion.Present Samples.short_pdfs) false
      Double.absent
    = (outcome, Double.loaded left_behind)
    /\ map fst left_behind = []
    /\ @Pipeline.init Double.externals (Double.loaded left_behind)
       = (inr true, Double.loaded left_behind).
Proof.
  assert (Hne : [pages_text [lit "Hi."]] <> []) by discriminate.
  exact (@process_documents_short_texts Double.externals Double.store
           Double.config None false false
           (DataIngestion.Present Samples.short_pdfs)
           (DataIngestion.Present Samples.short_pdfs)
           [pages_text [lit "Hi."]] [] Double.absent
           (proj1 double_store_contracts) (proj2 double_store_contracts)
           eq_refl eq_refl Hne eq_refl eq_refl).
Defined.

Lemma process_endpoint_outcomes_witness :
  @Endpoints.process_documents Double.externals Double.store Double.config
    None false (DataIngestion.Missing (inl (OtherException (lit "read-only"))))
    false Double.absent
  = (inl (HTTPException 500
            (lit "Error processing documents: read-only")), Double.absent).
Proof.
  exact (proj1
           (proj2
              (proj2
                 (@process_endpoint_outcomes Double.externals Double.store
                    Double.config None false false
                    (DataIngestion.Missing
                       (inl (OtherException (lit "read-only"))))
                    Double.absent)
                 eq_refl))
           (OtherException (lit "read-only")) eq_refl).
Defined.
